(** * AstrBot auto-backup plugin: archive builder, retention and scheduler

    A shallow embedding of [main.py] (class [AutoBackupPlugin]) and the
    properties of its backup engine.  Paths are [pathlib.Path] objects,
    modelled by their list of components; file names are strings; the
    file system, the clock and the fallible system calls are explicit. *)

From Stdlib Require Import List String Ascii ZArith QArith Bool Arith Lia.
From Stdlib Require Import Permutation Sorted.
Import ListNotations.
Local Close Scope Q_scope.
Local Open Scope nat_scope.
Local Open Scope string_scope.
Local Open Scope list_scope.

Set Warnings "-register-all".

(* ================================================================== *)
(** * Part I.  Definitions                                             *)
(* ================================================================== *)

(** ** Python values that the plugin hands to its callers *)

Inductive pyval : Type :=
| PyNone
| PyBool (b : bool)
| PyInt (z : Z)
| PyFloat (q : Q)
| PyStr (s : string)
| PyStrList (l : list string).

(** A [dict] literal with string keys, in insertion order. *)
Definition pydict := list (string * pyval).

Fixpoint dict_get (k : string) (d : pydict) : option pyval :=
  match d with
  | [] => None
  | (k', v) :: d' => if String.eqb k k' then Some v else dict_get k d'
  end.

Definition has_key (k : string) (d : pydict) : bool :=
  match dict_get k d with Some _ => true | None => false end.

(** ** Strings: the [str] and [pathlib] operations the plugin uses *)

Module PyStr.

(** [s.rfind(c)]: index of the last occurrence, [None] for -1. *)
Fixpoint rfind (c : ascii) (s : string) : option nat :=
  match s with
  | EmptyString => None
  | String a s' =>
      match rfind c s' with
      | Some i => Some (S i)
      | None => if Ascii.eqb a c then Some 0 else None
      end
  end.

(** [s.startswith(p)]. *)
Definition startswith (s p : string) : bool := String.prefix p s.

(** [s.split(sep)] for a one-character separator. *)
Fixpoint split (sep : ascii) (s : string) : list string :=
  match s with
  | EmptyString => [EmptyString]
  | String a s' =>
      if Ascii.eqb a sep then EmptyString :: split sep s'
      else match split sep s' with
           | h :: t => String a h :: t
           | [] => [String a EmptyString]
           end
  end.

(** [x in l] for a list of strings. *)
Definition str_in (x : string) (l : list string) : bool :=
  existsb (String.eqb x) l.

(** [sep.join(l)]. *)
Fixpoint join (sep : string) (l : list string) : string :=
  match l with
  | [] => EmptyString
  | [x] => x
  | x :: l' => x ++ sep ++ join sep l'
  end.

End PyStr.

Module PathLib.

(** A [Path] is its tuple of components ([Path.parts]). *)
Definition path := list string.

(** [posixpath.splitroot]: the root is [/], exactly two slashes, or
    empty. *)
Definition splitroot (p : string) : string * string :=
  match p with
  | String "/" (String "/" (String "/" r)) => ("/", String "/" (String "/" r))
  | String "/" (String "/" r) => ("//", r)
  | String "/" r => ("/", r)
  | _ => (EmptyString, p)
  end.

(** [Path(p).parts]: the root, then the components that are neither
    empty nor a single dot. *)
Definition parts (p : string) : path :=
  let '(root, rel) := splitroot p in
  let parsed :=
    filter (fun x => negb (String.eqb x EmptyString) && negb (String.eqb x "."))
           (PyStr.split "/" rel) in
  if String.eqb root EmptyString then parsed else root :: parsed.

(** [Path.name]: the final component, empty for an empty path. *)
Definition name (p : path) : string := last p EmptyString.

(** [Path.parent]: the parent of a bare root is the root itself. *)
Definition parent (p : path) : path :=
  match p with
  | [r] => if PyStr.startswith r "/" then p else []
  | _ => removelast p
  end.

(** [PurePath.suffix] of a file name, as pathlib computes it up to
    Python 3.13: from the last dot on, unless that dot is the first or
    the last character. *)
Definition suffix_of_name (n : string) : string :=
  match PyStr.rfind "." n with
  | Some i =>
      if (0 <? i)%nat && (i <? String.length n - 1)%nat
      then substring i (String.length n - i) n
      else EmptyString
  | None => EmptyString
  end.

Definition suffix (p : path) : string := suffix_of_name (name p).

(** [p.relative_to(base)]: [None] stands for the [ValueError] raised
    when [base] is not a prefix of [p]. *)
Fixpoint relative_to (p base : path) {struct base} : option path :=
  match base with
  | [] => Some p
  | b :: base' =>
      match p with
      | x :: p' => if String.eqb x b then relative_to p' base' else None
      | [] => None
      end
  end.

(** [str(p)]: the root, when there is one, then the components joined
    by slashes; the empty path is written as a dot. *)
Definition to_str (p : path) : string :=
  match p with
  | [] => "."
  | r :: rest =>
      if PyStr.startswith r "/" then r ++ PyStr.join "/" rest
      else PyStr.join "/" p
  end.

(** [os.path.isabs]. *)
Definition isabs (s : string) : bool := PyStr.startswith s "/".

End PathLib.

Import PathLib.

(** ** [fnmatch]-style matching of one path component

    The only wildcard the plugin's pattern uses is the star; every other
    character of the pattern stands for itself. *)

Fixpoint fnmatch (pat : list ascii) (s : list ascii) {struct pat} : bool :=
  match pat with
  | [] => match s with [] => true | _ :: _ => false end
  | c :: pat' =>
      if Ascii.eqb c "*" then
        (fix star (t : list ascii) : bool :=
           fnmatch pat' t
           || match t with [] => false | _ :: t' => star t' end) s
      else match s with
           | [] => false
           | a :: s' => Ascii.eqb c a && fnmatch pat' s'
           end
  end.

Definition backup_glob : string := "astrbot_backup_*.zip".

Definition glob_match (pattern name : string) : bool :=
  fnmatch (list_ascii_of_string pattern) (list_ascii_of_string name).

(** ** The directory tree under the installation directory *)

Inductive node : Type :=
| File (name : string)
| Dir (name : string) (children : list node).

Definition dirnames (cs : list node) : list string :=
  flat_map (fun c => match c with Dir d _ => [d] | File _ => [] end) cs.

Definition filenames (cs : list node) : list string :=
  flat_map (fun c => match c with File f => [f] | Dir _ _ => [] end) cs.

(** [os.walk(top)], top-down.  Each directory yields
    [(root, dirs, files)]; the caller then replaces [dirs] in place by
    [[d for d in dirs if keep d]], and the walk descends into what is
    left, in order.  [n] is the node found at [root]; a [root] that is
    not a directory yields nothing. *)
Fixpoint os_walk (keep : string -> bool) (root : path) (n : node)
  : list (path * list string * list string) :=
  match n with
  | File _ => []
  | Dir _ cs =>
      (root, dirnames cs, filenames cs)
      :: flat_map (fun c =>
                     match c with
                     | Dir d _ => if keep d then os_walk keep (root ++ [d]) c else []
                     | File _ => []
                     end) cs
  end.

(** ** [AutoBackupPlugin]: exclusion rules and file names *)

Definition default_exclude_dirs : list string :=
  [".venv"; "__pycache__"; ".git"; "node_modules"].

(** [_should_exclude(path, exclude_dirs=None)]. *)
Definition _should_exclude (p : string) (exclude_dirs : option (list string)) : bool :=
  let exclude_dirs :=
    match exclude_dirs with
    | None => default_exclude_dirs
    | Some l => l
    end in
  existsb (fun part => PyStr.str_in part exclude_dirs) (parts p).

Definition excluded_suffixes : list string := [".pyc"; ".log"; ".tmp"].

Definition backup_prefix : string := "astrbot_backup_".

(** The test of lines 112-113: an earlier (or the current) backup. *)
Definition is_backup_name (file_path : path) : bool :=
  PyStr.startswith (name file_path) backup_prefix
  && String.eqb (suffix file_path) ".zip".

(** [datetime.now()], second granularity. *)
Record datetime : Type := mkDatetime {
  year : nat; month : nat; day : nat;
  hour : nat; minute : nat; second : nat
}.

Definition digit (n : nat) : ascii := ascii_of_nat (48 + n mod 10).

(** [%m], [%d], [%H], [%M], [%S]: two digits, zero padded. *)
Definition fmt2 (n : nat) : string :=
  String (digit (n / 10)) (String (digit n) EmptyString).

(** [%Y]: four digits for the years 0001..9999 of [datetime]. *)
Definition fmt4 (n : nat) : string :=
  String (digit (n / 1000)) (String (digit (n / 100)) (fmt2 n)).

(** [strftime("%Y%m%d_%H%M%S")]. *)
Definition strftime (t : datetime) : string :=
  fmt4 (year t) ++ fmt2 (month t) ++ fmt2 (day t) ++ "_"
  ++ fmt2 (hour t) ++ fmt2 (minute t) ++ fmt2 (second t).

(** [_generate_backup_filename]. *)
Definition _generate_backup_filename (now : datetime) : string :=
  "astrbot_backup_" ++ strftime now ++ ".zip".

(** ** Configuration and the plugin object *)

(** [self.config]: the three recognised options, each possibly absent. *)
Record config : Type := mkConfig {
  cfg_backup_path : option string;
  cfg_max_backups : option Z;
  cfg_cron_expression : option string
}.

(** [d.get(key, default)]. *)
Definition get {A : Type} (o : option A) (default : A) : A :=
  match o with Some v => v | None => default end.

Record plugin : Type := mkPlugin {
  cfg : config;
  astrbot_path : path
}.

(** [_get_backup_path]. *)
Definition _get_backup_path (self : plugin) : path :=
  let backup_path := get (cfg_backup_path (cfg self)) EmptyString in
  if negb (String.eqb backup_path EmptyString) && isabs backup_path
  then parts backup_path
  else parent (astrbot_path self).

(** ** The destination directory, the log, and fallible steps *)

(** The outcome of a step that may raise [Exception(msg)]. *)
Inductive res (A : Type) : Type :=
| Ok (a : A)
| Raise (msg : string).
Arguments Ok {A} a.
Arguments Raise {A} msg.

(** One name listed in the destination directory.  [d_mtime] is what
    [stat().st_mtime] gives: the number the sort compares, or the
    exception [stat] raises (on a dangling link, say); [d_unlink] is the
    message of the exception [unlink] raises on it (a directory, a locked
    or protected file), if any. *)
Record dirent : Type := mkDirent {
  d_name : string;
  d_mtime : res Z;
  d_unlink : option string
}.

Inductive log_record : Type :=
| LogBackupStart (file : path)
| LogBackupDone (file : path) (size : N)
| LogBackupFailed (e : string)
| LogDeleted (file : path)
| LogDeleteFailed (file : path) (e : string)
| LogCleanupFailed (e : string).

Record state : Type := mkState {
  st_dir : list dirent;            (* listing of the destination directory *)
  st_zip : option (list path);     (* entry names of the archive of this attempt *)
  st_log : list log_record         (* the logger, oldest record first *)
}.

(** Steps thread the state and may raise. *)
Definition M (A : Type) : Type := state -> res A * state.

Definition ret {A : Type} (a : A) : M A := fun s => (Ok a, s).

Definition bind {A B : Type} (m : M A) (k : A -> M B) : M B :=
  fun s =>
    match m s with
    | (Ok a, s') => k a s'
    | (Raise e, s') => (Raise e, s')
    end.

Definition raise {A : Type} (e : string) : M A := fun s => (Raise e, s).

(** [try: m except Exception as e: h e]. *)
Definition try_except {A : Type} (m : M A) (h : string -> M A) : M A :=
  fun s =>
    match m s with
    | (Ok a, s') => (Ok a, s')
    | (Raise e, s') => h e s'
    end.

Declare Scope py_scope.
Delimit Scope py_scope with py.
Notation "x <- m ;; k" := (bind m (fun x => k))
  (at level 100, m at next level, right associativity) : py_scope.
Notation "m ;;; k" := (bind m (fun _ => k))
  (at level 100, right associativity) : py_scope.
Local Open Scope py_scope.

(** [for x in l: body x]. *)
Fixpoint for_each {A : Type} (l : list A) (body : A -> M unit) : M unit :=
  match l with
  | [] => ret tt
  | x :: l' => body x ;;; for_each l' body
  end.

Definition logger (r : log_record) : M unit :=
  fun s => (Ok tt, mkState (st_dir s) (st_zip s) (st_log s ++ [r])).

(** A step that raises when the environment says so. *)
Definition may_raise (fault : option string) : M unit :=
  match fault with
  | Some e => raise e
  | None => ret tt
  end.

(** Everything one backup attempt meets outside the plugin: the tree
    [os.walk] finds, the clock, and which system calls raise. *)
Record world : Type := mkWorld {
  w_tree : node;
  w_now : datetime;
  w_mkdir : option string;
  w_open : option string;
  w_write : path -> option string;
  w_close : option string;
  w_stat : res N;
  w_new_mtime : res Z;
  w_new_unlink : option string
}.

(** ** The archive builder *)

(** [backup_dir.mkdir(parents=True, exist_ok=True)]. *)
Definition mkdir (w : world) : M unit := may_raise (w_mkdir w).

(** Opening the archive for writing creates the file, or truncates the
    one of that name. *)
Fixpoint create_entry (w : world) (fname : string) (l : list dirent) : list dirent :=
  match l with
  | [] => [mkDirent fname (w_new_mtime w) (w_new_unlink w)]
  | d :: l' =>
      if String.eqb (d_name d) fname
      then mkDirent fname (w_new_mtime w) (w_new_unlink w) :: l'
      else d :: create_entry w fname l'
  end.

(** [with zipfile.ZipFile(backup_file, 'w', ...) as zipf: body].  Leaving
    the block, normally or by an exception, closes the archive; the file
    stays where it is. *)
Definition with_zipfile (w : world) (fname : string) (body : M unit) : M unit :=
  fun s =>
    match w_open w with
    | Some e => (Raise e, s)
    | None =>
        let s1 := mkState (create_entry w fname (st_dir s)) (Some []) (st_log s) in
        match body s1 with
        | (Ok _, s2) => may_raise (w_close w) s2
        | (Raise e, s2) =>
            match w_close w with
            | Some e' => (Raise e', s2)
            | None => (Raise e, s2)
            end
        end
    end.

(** [zipf.write(file_path, arcname)]. *)
Definition zip_write (w : world) (file_path arcname : path) : M unit :=
  fun s =>
    match w_write w file_path with
    | Some e => (Raise e, s)
    | None =>
        (Ok tt, mkState (st_dir s)
                        (Some (get (st_zip s) [] ++ [arcname]))
                        (st_log s))
    end.

(** The filter of line 104. *)
Definition keep_dir (d : string) : bool := negb (_should_exclude d None).

(** The body of the inner loop, lines 107-116. *)
Definition add_file (self : plugin) (w : world) (root : path) (file : string) : M unit :=
  let file_path := root ++ [file] in
  if PyStr.str_in (suffix file_path) excluded_suffixes then ret tt
  else if is_backup_name file_path then ret tt
  else match relative_to file_path (astrbot_path self) with
       | None => raise "is not in the subpath"
       | Some arcname => zip_write w file_path arcname
       end.

(** Lines 102-116. *)
Definition write_tree (self : plugin) (w : world) : M unit :=
  for_each (os_walk keep_dir (astrbot_path self) (w_tree w))
           (fun '(root, _, files) => for_each files (add_file self w root)).

(** [backup_file.stat().st_size]. *)
Definition stat_size (w : world) : M N :=
  fun s => (w_stat w, s).

(** Rounding to the nearest integer, ties to even. *)
Definition round_half_even (a b : Z) : Z :=
  let q := (a / b)%Z in
  let r := (a mod b)%Z in
  if (2 * r <? b)%Z then q
  else if (b <? 2 * r)%Z then (q + 1)%Z
  else if Z.even q then q else (q + 1)%Z.

(** [round(file_size / (1024 * 1024), 2)].  Dividing by a power of two
    is exact on floats, and [round] rounds the exact quotient to two
    decimals, ties to even.  The float returned is the double nearest to
    that decimal; it is written here as the decimal itself, [k/100]. *)
Definition size_mb (file_size : N) : Q :=
  Qmake (round_half_even (100 * Z.of_N file_size) (1024 * 1024)) 100.

(** ** Retention *)

(** [backup_dir.glob("astrbot_backup_*.zip")], in directory order. *)
Definition glob_backups (l : list dirent) : list dirent :=
  filter (fun d => glob_match backup_glob (d_name d)) l.

(** The sort keys, [x.stat().st_mtime], computed in list order; the first
    [stat] that raises ends the sort. *)
Fixpoint mtime_keys (l : list dirent) : res (list (Z * dirent)) :=
  match l with
  | [] => Ok []
  | d :: l' =>
      match d_mtime d with
      | Raise e => Raise e
      | Ok t =>
          match mtime_keys l' with
          | Ok ks => Ok ((t, d) :: ks)
          | Raise e => Raise e
          end
      end
  end.

(** [list.sort(key=..., reverse=True)]: descending and stable. *)
Fixpoint insert_desc (x : Z * dirent) (l : list (Z * dirent)) : list (Z * dirent) :=
  match l with
  | [] => [x]
  | y :: l' => if (fst x <? fst y)%Z then y :: insert_desc x l' else x :: l
  end.

Definition sort_desc (l : list (Z * dirent)) : list (Z * dirent) :=
  fold_right insert_desc [] l.

Definition sort_by_mtime (l : list dirent) : M (list dirent) :=
  fun s =>
    match mtime_keys l with
    | Ok ks => (Ok (map snd (sort_desc ks)), s)
    | Raise e => (Raise e, s)
    end.

(** [old_backup.unlink()]. *)
Definition unlink (d : dirent) : M unit :=
  fun s =>
    match d_unlink d with
    | Some e => (Raise e, s)
    | None =>
        (Ok tt, mkState (filter (fun x => negb (String.eqb (d_name x) (d_name d))) (st_dir s))
                        (st_zip s) (st_log s))
    end.

(** Lines 156-160. *)
Definition delete_old (backup_dir : path) (old_backup : dirent) : M unit :=
  try_except
    (unlink old_backup ;;; logger (LogDeleted (backup_dir ++ [d_name old_backup])))
    (fun e => logger (LogDeleteFailed (backup_dir ++ [d_name old_backup]) e)).

(** [_cleanup_old_backups].  Every path through the function ends without
    a [return] value, so the caller receives [None]. *)
Definition _cleanup_old_backups (self : plugin) (backup_dir : path) : M pyval :=
  try_except
    (let max_backups := get (cfg_max_backups (cfg self)) 5%Z in
     if (max_backups <=? 0)%Z then ret PyNone
     else
       backup_files <- (fun s => (Ok (glob_backups (st_dir s)), s)) ;;
       backup_files <- sort_by_mtime backup_files ;;
       (if (max_backups <? Z.of_nat (List.length backup_files))%Z
        then for_each (skipn (Z.to_nat max_backups) backup_files) (delete_old backup_dir)
        else ret tt) ;;;
       ret PyNone)
    (fun e => logger (LogCleanupFailed e) ;;; ret PyNone).

(** Lines 89-121 of [_create_backup]: everything up to and including
    the [stat] of the finished archive. *)
Definition build_archive (self : plugin) (w : world) : M N :=
  let backup_dir := _get_backup_path self in
  let backup_filename := _generate_backup_filename (w_now w) in
  let backup_file := backup_dir ++ [backup_filename] in
  logger (LogBackupStart backup_file) ;;;
  mkdir w ;;;
  with_zipfile w backup_filename (write_tree self w) ;;;
  file_size <- stat_size w ;;
  logger (LogBackupDone backup_file file_size) ;;;
  ret file_size.

(** [_create_backup]. *)
Definition _create_backup (self : plugin) (w : world) (s : state) : pydict * state :=
  let backup_dir := _get_backup_path self in
  let backup_filename := _generate_backup_filename (w_now w) in
  let backup_file := backup_dir ++ [backup_filename] in
  let attempt : M pydict :=
    file_size <- build_archive self w ;;
    _cleanup_old_backups self backup_dir ;;;
    ret [("success", PyBool true);
         ("path", PyStr (to_str backup_file));
         ("size_mb", PyFloat (size_mb file_size));
         ("filename", PyStr backup_filename)] in
  match attempt s with
  | (Ok result, s') => (result, s')
  | (Raise e, s') =>
      ([("success", PyBool false); ("error", PyStr e)],
       mkState (st_dir s') (st_zip s') (st_log s' ++ [LogBackupFailed e]))
  end.

(** ** The scheduler loop

    Time is the loop's own clock, in microseconds (the resolution of
    [timedelta]); [asyncio.sleep(d)] advances it by [d], a backup by the
    time the backup takes.  The recurrence library, the stop flag set by
    [terminate] and the backups' surroundings are given from outside.

    The definitions of this section follow the task for as long as it is
    not cancelled: every [await] runs to its end.  What [terminate] does
    to the task, which is to cancel it at the [await] it is in, is the
    subject of the section on the loop under [terminate]. *)

Definition second_us : Z := 1000000.
Definition minute_us : Z := 60 * second_us.
Definition cooldown_us : Z := 3600 * second_us.

Inductive sched_log : Type :=
| SchedStarted (cron_expr : string)
| SchedNextRun (next_run : Z)
| SchedRunning
| SchedOk (filename size : pyval)
| SchedFailed (error : pyval)
| SchedError (e : string).

Inductive sched_event : Type :=
| EvLog (r : sched_log)
| EvSleep (us : Z)
| EvBackup (result : pydict).

Record sched_env : Type := mkSchedEnv {
  (* croniter(cron_expr, now).get_next(datetime), or the exception *)
  cron_next : string -> Z -> res Z;
  (* self._stop_backup as read at a given time *)
  stop_backup : Z -> bool;
  (* what a backup started at a given time meets, and how long it takes *)
  backup_world : Z -> world;
  backup_time : Z -> Z
}.

Record sched_state : Type := mkSched {
  clock : Z;
  disk : state;
  trace : list sched_event
}.

Definition emit (ev : sched_event) (st : sched_state) : sched_state :=
  mkSched (clock st) (disk st) (trace st ++ [ev]).

(** [await asyncio.sleep(us)], left to run to its end. *)
Definition sleep (us : Z) (st : sched_state) : sched_state :=
  mkSched (clock st + us) (disk st) (trace st ++ [EvSleep us]).

Inductive ctl : Type := Continue | Break.

(** Lines 182-185: [for _ in range(n): if stop: break; sleep(60)]. *)
Fixpoint poll_minutes (env : sched_env) (n : nat) (st : sched_state) : sched_state :=
  match n with
  | O => st
  | S n' =>
      if stop_backup env (clock st) then st
      else poll_minutes env n' (sleep minute_us st)
  end.

(** Lines 179-188, for [wait_seconds > 0]: the state when the waiting
    ends, and whether it ends by the [break] out of the [while] loop. *)
Definition wait_until (env : sched_env) (next_run : Z) (wait : Z)
                      (st : sched_state) : sched_state * ctl :=
  let st := emit (EvLog (SchedNextRun next_run)) st in
  let st := poll_minutes env (Z.to_nat (wait / minute_us)) st in
  if stop_backup env (clock st) then (st, Break)
  else (sleep (wait mod minute_us) st, Continue).

(** Python truth value. *)
Definition truthy (v : pyval) : bool :=
  match v with
  | PyNone => false
  | PyBool b => b
  | PyInt z => negb (z =? 0)%Z
  | PyFloat q => negb (Qnum q =? 0)%Z
  | PyStr s => negb (String.eqb s EmptyString)
  | PyStrList l => match l with [] => false | _ :: _ => true end
  end.

(** Lines 193-199; a missing key raises [KeyError]. *)
Definition report (result : pydict) : res sched_log :=
  match dict_get "success" result with
  | None => Raise "'success'"
  | Some v =>
      if truthy v then
        match dict_get "filename" result with
        | None => Raise "'filename'"
        | Some f =>
            match dict_get "size_mb" result with
            | None => Raise "'size_mb'"
            | Some sz => Ok (SchedOk f sz)
            end
        end
      else Ok (SchedFailed (get (dict_get "error" result) (PyStr "Unknown error")))
  end.

(** Lines 190-199. *)
Definition run_backup (self : plugin) (env : sched_env) (st : sched_state)
  : sched_state * res unit :=
  let st := emit (EvLog SchedRunning) st in
  let '(result, disk') := _create_backup self (backup_world env (clock st)) (disk st) in
  let st := mkSched (clock st + backup_time env (clock st)) disk'
                    (trace st ++ [EvBackup result]) in
  match report result with
  | Ok r => (emit (EvLog r) st, Ok tt)
  | Raise e => (st, Raise e)
  end.

(** The [try] block, lines 172-199: the state reached, and whether the
    block ended normally, by [break], or by an exception. *)
Definition try_block (self : plugin) (env : sched_env) (cron_expr : string)
                     (st : sched_state) : sched_state * res ctl :=
  match cron_next env cron_expr (clock st) with
  | Raise e => (st, Raise e)
  | Ok next_run =>
      let wait := (next_run - clock st)%Z in
      let '(st', c) :=
        if (0 <? wait)%Z then wait_until env next_run wait st
        else (st, Continue) in
      match c with
      | Break => (st', Ok Break)
      | Continue =>
          match run_backup self env st' with
          | (st'', Ok _) => (st'', Ok Continue)
          | (st'', Raise e) => (st'', Raise e)
          end
      end
  end.

(** One pass through the body of the [while] loop, lines 171-204. *)
Definition iteration (self : plugin) (env : sched_env) (cron_expr : string)
                     (st : sched_state) : sched_state * ctl :=
  match try_block self env cron_expr st with
  | (st', Ok c) => (st', c)
  | (st', Raise e) => (sleep cooldown_us (emit (EvLog (SchedError e)) st'), Continue)
  end.

Inductive outcome : Type :=
| Exited            (* the loop has ended *)
| Running.          (* the loop is about to start another pass *)

(** [while not self._stop_backup: ...], for at most [passes] passes. *)
Fixpoint while_loop (self : plugin) (env : sched_env) (cron_expr : string)
                    (passes : nat) (st : sched_state) : sched_state * outcome :=
  match passes with
  | O => (st, Running)
  | S n =>
      if stop_backup env (clock st) then (st, Exited)
      else match iteration self env cron_expr st with
           | (st', Break) => (st', Exited)
           | (st', Continue) => while_loop self env cron_expr n st'
           end
  end.

(** [_scheduled_backup_task]. *)
Definition _scheduled_backup_task (self : plugin) (env : sched_env)
                                  (passes : nat) (st : sched_state)
  : sched_state * outcome :=
  let cron_expr := get (cfg_cron_expression (cfg self)) "0 0 */7 * *" in
  while_loop self env cron_expr passes (emit (EvLog (SchedStarted cron_expr)) st).

(** ** Vocabulary of the properties *)

(** The files below a directory, each by its components relative to it. *)
Fixpoint files_under (n : node) : list path :=
  match n with
  | File _ => []
  | Dir _ cs =>
      flat_map (fun c =>
                  match c with
                  | File f => [[f]]
                  | Dir d _ => map (cons d) (files_under c)
                  end) cs
  end.

(** The entry names of the archive of the current attempt. *)
Definition entries (s : state) : list path := get (st_zip s) [].

(** The names listed in the destination directory. *)
Definition listing (s : state) : list string := map d_name (st_dir s).

(** A step leaves a component of the state alone. *)
Definition keeps {A B : Type} (proj : state -> B) (m : M A) : Prop :=
  forall s, proj (snd (m s)) = proj s.

(** A step never raises. *)
Definition total {A : Type} (m : M A) : Prop :=
  forall s, exists a, fst (m s) = Ok a.

(** What the archive builder lets through: a file of the tree that is
    reached through directories outside the exclusion list, whose suffix
    is not excluded and whose name is not that of a backup. *)
Definition admissible (tree : node) (entry : path) : Prop :=
  In entry (files_under tree)
  /\ exists dirs file,
      entry = dirs ++ [file]
      /\ (forall d, In d dirs -> ~ In d default_exclude_dirs)
      /\ ~ In (suffix_of_name file) excluded_suffixes
      /\ is_backup_name entry = false.

(** A step maintains a property of the state. *)
Definition preserves {A : Type} (I : state -> Prop) (m : M A) : Prop :=
  forall s, I s -> I (snd (m s)).

(** ** A small installation, after the scenario of the specification *)

Definition demo_tree : node :=
  Dir "astrbot"
      [File "astrbot_backup_20240101_000000.zip";
       Dir "app" [File "main.bin";
                  Dir ".venv" [File "lib.so"];
                  File "cache.log"];
       Dir "data" [File "config.json"]].

Definition demo_plugin : plugin :=
  mkPlugin (mkConfig None (Some 5%Z) None) ["/"; "srv"; "astrbot"].

Definition demo_now : datetime := mkDatetime 2025 3 7 9 5 1.

(** A world in which nothing fails. *)
Definition demo_world : world :=
  mkWorld demo_tree demo_now None None (fun _ => None) None
          (Ok 131072%N) (Ok 100%Z) None.

(** A world in which a file has vanished when it is to be written. *)
Definition demo_world_vanished : world :=
  mkWorld demo_tree demo_now None None
          (fun p => if String.eqb (name p) "config.json"
                    then Some "No such file or directory" else None)
          None (Ok 131072%N) (Ok 100%Z) None.

Definition backup_named (stamp : string) (mtime : Z) : dirent :=
  mkDirent ("astrbot_backup_" ++ stamp ++ ".zip") (Ok mtime) None.

(** Seven archives with distinct modification times, and a bystander. *)
Definition demo_dir : list dirent :=
  [backup_named "20250103_000000" 30;
   backup_named "20250101_000000" 10;
   backup_named "20250107_000000" 70;
   mkDirent "notes.txt" (Ok 5%Z) None;
   backup_named "20250105_000000" 50;
   backup_named "20250102_000000" 20;
   backup_named "20250106_000000" 60;
   backup_named "20250104_000000" 40].

Definition demo_state : state := mkState demo_dir None [].

(** ** Vocabulary for retention *)

(** [unlink] succeeds on this file. *)
Definition can_unlink (d : dirent) : bool :=
  match d_unlink d with None => true | Some _ => false end.

(** The record lines 158/160 write for one old backup. *)
Definition delete_record (backup_dir : path) (d : dirent) : log_record :=
  match d_unlink d with
  | None => LogDeleted (backup_dir ++ [d_name d])
  | Some e => LogDeleteFailed (backup_dir ++ [d_name d]) e
  end.

(** The old backups line 155 iterates over: those beyond the first
    [max_backups] in the sorted list, when there are more than that. *)
Definition old_backups (self : plugin) (s : state) : list dirent :=
  let max_backups := get (cfg_max_backups (cfg self)) 5%Z in
  if (max_backups <=? 0)%Z then []
  else match mtime_keys (glob_backups (st_dir s)) with
       | Raise _ => []
       | Ok ks =>
           let backup_files := map snd (sort_desc ks) in
           if (max_backups <? Z.of_nat (List.length backup_files))%Z
           then skipn (Z.to_nat max_backups) backup_files
           else []
       end.

(** Descending order of the decorated list. *)
Definition desc (x y : Z * dirent) : Prop := (fst y <= fst x)%Z.

(** The paths a run of log records reports as deleted, in order. *)
Definition deleted_paths (recs : list log_record) : list path :=
  flat_map (fun r => match r with LogDeleted p => [p] | _ => [] end) recs.

Definition demo_backup_dir : path := ["/"; "srv"].

(** Three archives, the oldest of which cannot be unlinked. *)
Definition locked_dir : list dirent :=
  [mkDirent "astrbot_backup_20250101_000000.zip" (Ok 10%Z) (Some "Permission denied");
   backup_named "20250102_000000" 20;
   backup_named "20250103_000000" 30].

Definition locked_state : state := mkState locked_dir None [].

Definition keep_two : plugin :=
  mkPlugin (mkConfig None (Some 2%Z) None) ["/"; "srv"; "astrbot"].

(** ** Vocabulary for the scheduler *)


(** A recurrence expression the library rejects, whatever the time. *)
Definition malformed_env : sched_env :=
  mkSchedEnv (fun _ _ => Raise "Exactly 5 or 6 columns has to be specified")
             (fun _ => false)
             (fun _ => demo_world)
             (fun _ => 0%Z).


Definition sched_start : sched_state := mkSched 0 demo_state [].

(** ** Locating the installation *)

(** What [_get_astrbot_path] consults: where the plugin file is, which
    paths exist, the path of the host's base configuration (present when
    the context has a [base_config] with a [path]), and the working
    directory. *)
Record host : Type := mkHost {
  h_plugin_file : path;
  h_exists : path -> bool;
  h_base_config_path : option string;
  h_cwd : path
}.

Definition indicators : list string := ["data"; "core"; "plugins"].

(** Line 51: [any((path / indicator).exists() for indicator in indicators)]. *)
Definition looks_like_root (h : host) (p : path) : bool :=
  existsb (fun indicator => h_exists h (p ++ [indicator])) indicators.

(** [_get_astrbot_path]. *)
Definition _get_astrbot_path (h : host) : path :=
  let plugin_file := h_plugin_file h in
  let possible_paths :=
    [parent (parent plugin_file); parent (parent (parent plugin_file))] in
  match find (looks_like_root h) possible_paths with
  | Some p => p
  | None =>
      match h_base_config_path h with
      | Some p => parts p
      | None => h_cwd h
      end
  end.

(** ** The commands *)

(** What a command handler yields to the user. *)
Inductive reply : Type :=
| ReplyNotAdmin
| ReplyStarted
| ReplySuccess (filename path size : pyval)
| ReplyFailed (error : pyval)
| ReplyNoBackups
| ReplyStatus (backup_dir : path) (count : nat)
              (shown : list (string * N * Z)) (more : option nat)
| ReplyStatusFailed (e : string).

(** [d[key]]: a missing key raises [KeyError]. *)
Definition subscript (d : pydict) (key : string) : res pyval :=
  match dict_get key d with
  | Some v => Ok v
  | None => Raise key
  end.

(** Lines 224-232. *)
Definition manual_reply (result : pydict) : res reply :=
  match subscript result "success" with
  | Raise e => Raise e
  | Ok v =>
      if truthy v then
        match subscript result "filename" with
        | Raise e => Raise e
        | Ok f =>
            match subscript result "path" with
            | Raise e => Raise e
            | Ok p =>
                match subscript result "size_mb" with
                | Raise e => Raise e
                | Ok sz => Ok (ReplySuccess f p sz)
                end
            end
        end
      else
        match subscript result "error" with
        | Raise e => Raise e
        | Ok e => Ok (ReplyFailed e)
        end
  end.

(** [manual_backup]: what it yields, how it ends, and the state it
    leaves. *)
Definition manual_backup (self : plugin) (w : world) (is_admin : bool) (s : state)
  : list reply * res unit * state :=
  if negb is_admin then ([ReplyNotAdmin], Ok tt, s)
  else
    let '(result, s') := _create_backup self w s in
    match manual_reply result with
    | Ok r => ([ReplyStarted; r], Ok tt, s')
    | Raise e => ([ReplyStarted], Raise e, s')
    end.

(** Lines 251-256: one line of the listing, from two more [stat] calls
    and [datetime.fromtimestamp], which raises for a time it cannot show
    (a year outside 1..9999). *)
Fixpoint status_lines (size_of : string -> N) (fromtimestamp_raises : Z -> option string)
                      (l : list dirent) : res (list (string * N * Z)) :=
  match l with
  | [] => Ok []
  | d :: l' =>
      match d_mtime d with
      | Raise e => Raise e
      | Ok t =>
          match fromtimestamp_raises t with
          | Some e => Raise e
          | None =>
              match status_lines size_of fromtimestamp_raises l' with
              | Ok ls => Ok ((d_name d, size_of (d_name d), t) :: ls)
              | Raise e => Raise e
              end
          end
      end
  end.

(** [backup_status]; [size_of] gives [stat().st_size] by name, and
    [fromtimestamp_raises] the exception of [datetime.fromtimestamp] for
    a time, if it raises one. *)
Definition backup_status (self : plugin) (size_of : string -> N)
                         (fromtimestamp_raises : Z -> option string) (s : state) : reply :=
  let backup_dir := _get_backup_path self in
  let backup_files := glob_backups (st_dir s) in
  match backup_files with
  | [] => ReplyNoBackups
  | _ :: _ =>
      match mtime_keys backup_files with
      | Raise e => ReplyStatusFailed e
      | Ok ks =>
          let backup_files := map snd (sort_desc ks) in
          match status_lines size_of fromtimestamp_raises (firstn 5 backup_files) with
          | Raise e => ReplyStatusFailed e
          | Ok shown =>
              ReplyStatus backup_dir (List.length backup_files) shown
                          (if Nat.ltb 5 (List.length backup_files)
                           then Some (List.length backup_files - 5)
                           else None)
          end
      end
  end.

(** ** Further vocabulary *)

(** A usable path component: not empty, not a single dot, no slash. *)
Definition component (x : string) : Prop :=
  x <> EmptyString /\ x <> "." /\ PyStr.rfind "/" x = None.

(** A date the clock can show: four-digit year, two-digit fields. *)
Definition printable (t : datetime) : Prop :=
  year t < 100 * 100 /\ month t < 100 /\ day t < 100
  /\ hour t < 100 /\ minute t < 100 /\ second t < 100.

(** The same surroundings with every fault removed. *)
Definition faultless (w : world) : world :=
  mkWorld (w_tree w) (w_now w) None None (fun _ => None) None
          (w_stat w) (w_new_mtime w) (w_new_unlink w).

(** The sleeps of a trace, in order. *)
Definition sleeps (tr : list sched_event) : list Z :=
  flat_map (fun ev => match ev with EvSleep us => [us] | _ => [] end) tr.

Definition is_fault_event (ev : sched_event) : bool :=
  match ev with EvLog (SchedError _) => true | _ => false end.

(** The entry names a build writes when nothing raises, in order. *)
Definition plan_file (self : plugin) (root : path) (file : string) : list path :=
  let file_path := root ++ [file] in
  if PyStr.str_in (suffix file_path) excluded_suffixes then []
  else if is_backup_name file_path then []
  else match relative_to file_path (astrbot_path self) with
       | None => []
       | Some arcname => [arcname]
       end.

Definition archive_plan (self : plugin) (tree : node) : list path :=
  flat_map (fun '(root, _, files) => flat_map (plan_file self root) files)
           (os_walk keep_dir (astrbot_path self) tree).

(** A step appends [out] to the archive, or a front part of it when it
    raises. *)
Definition writes (m : M unit) (out : list path) : Prop :=
  forall s,
    match fst (m s) with
    | Ok _ => entries (snd (m s)) = entries s ++ out
    | Raise _ => exists pre rest, out = pre ++ rest /\ entries (snd (m s)) = entries s ++ pre
    end.

(** The line [backup_status] shows for a file and its modification time. *)
Definition line_of (size_of : string -> N) (p : Z * dirent) : string * N * Z :=
  (d_name (snd p), size_of (d_name (snd p)), fst p).

(** The usual layout: the plugin under [data/plugins] of the
    installation, where [data] and [data/plugins] exist. *)
Definition demo_host : host :=
  mkHost ["/"; "srv"; "astrbot"; "data"; "plugins"; "autobackup"; "main.py"]
         (fun p => PyStr.str_in (to_str p)
                     ["/srv/astrbot/data"; "/srv/astrbot/data/plugins"])
         None ["/"].

(** A schedule whose next occurrence is 90 seconds after the start, no
    stop request, and backups that take five seconds. *)
Definition punctual_env : sched_env :=
  mkSchedEnv (fun _ _ => Ok (90 * second_us)%Z)
             (fun _ => false)
             (fun _ => demo_world)
             (fun _ => (5 * second_us)%Z).

(** ** The scheduler loop under [terminate]

    [terminate] (lines 275-284) is the only writer of [_stop_backup], and
    in the same step it cancels the task.  Every [await] is a
    cancellation point: [CancelledError] is raised there at once, and
    since it is no [Exception] it passes the handler of line 201 and
    ends the task.  [cancel] is the time at which [terminate] is called,
    if it ever is. *)

(** How an [await] ends. *)
Inductive awaited (A : Type) : Type :=
| Resumed (a : A)
| Cancelled.
Arguments Resumed {A} a.
Arguments Cancelled {A}.

(** When an [await] lasting from [from] to [till] is cancelled: at the
    time of the call if that falls before its end, at once if the call
    came earlier. *)
Definition cancelled_at (cancel : option Z) (from till : Z) : option Z :=
  match cancel with
  | Some u => if (u <? till)%Z || (u <=? from)%Z then Some (Z.max u from) else None
  | None => None
  end.

(** [await asyncio.sleep(us)]. *)
Definition sleep_c (cancel : option Z) (us : Z) (st : sched_state)
  : sched_state * awaited unit :=
  match cancelled_at cancel (clock st) (clock st + us) with
  | Some t => (mkSched t (disk st) (trace st ++ [EvSleep (t - clock st)]), Cancelled)
  | None => (sleep us st, Resumed tt)
  end.

(** Lines 182-185. *)
Fixpoint poll_minutes_c (env : sched_env) (cancel : option Z) (n : nat) (st : sched_state)
  : sched_state * awaited unit :=
  match n with
  | O => (st, Resumed tt)
  | S n' =>
      if stop_backup env (clock st) then (st, Resumed tt)
      else match sleep_c cancel minute_us st with
           | (st', Resumed _) => poll_minutes_c env cancel n' st'
           | (st', Cancelled) => (st', Cancelled)
           end
  end.

(** Lines 179-188. *)
Definition wait_until_c (env : sched_env) (cancel : option Z) (next_run : Z) (wait : Z)
                        (st : sched_state) : sched_state * awaited ctl :=
  let st := emit (EvLog (SchedNextRun next_run)) st in
  match poll_minutes_c env cancel (Z.to_nat (wait / minute_us)) st with
  | (st, Cancelled) => (st, Cancelled)
  | (st, Resumed _) =>
      if stop_backup env (clock st) then (st, Resumed Break)
      else match sleep_c cancel (wait mod minute_us) st with
           | (st', Resumed _) => (st', Resumed Continue)
           | (st', Cancelled) => (st', Cancelled)
           end
  end.

(** Lines 190-199.  Cancelling the [await] of line 192 does not stop the
    worker thread: the attempt is carried through, but the task no longer
    sees its result. *)
Definition run_backup_c (self : plugin) (env : sched_env) (cancel : option Z)
                        (st : sched_state) : sched_state * awaited (res unit) :=
  let st := emit (EvLog SchedRunning) st in
  let '(result, disk') := _create_backup self (backup_world env (clock st)) (disk st) in
  match cancelled_at cancel (clock st) (clock st + backup_time env (clock st)) with
  | Some t => (mkSched t disk' (trace st ++ [EvBackup result]), Cancelled)
  | None =>
      let st := mkSched (clock st + backup_time env (clock st)) disk'
                        (trace st ++ [EvBackup result]) in
      match report result with
      | Ok r => (emit (EvLog r) st, Resumed (Ok tt))
      | Raise e => (st, Resumed (Raise e))
      end
  end.

(** The [try] block, lines 172-199. *)
Definition try_block_c (self : plugin) (env : sched_env) (cancel : option Z)
                       (cron_expr : string) (st : sched_state)
  : sched_state * awaited (res ctl) :=
  match cron_next env cron_expr (clock st) with
  | Raise e => (st, Resumed (Raise e))
  | Ok next_run =>
      let wait := (next_run - clock st)%Z in
      let '(st', w) :=
        if (0 <? wait)%Z then wait_until_c env cancel next_run wait st
        else (st, Resumed Continue) in
      match w with
      | Cancelled => (st', Cancelled)
      | Resumed Break => (st', Resumed (Ok Break))
      | Resumed Continue =>
          match run_backup_c self env cancel st' with
          | (st'', Resumed (Ok _)) => (st'', Resumed (Ok Continue))
          | (st'', Resumed (Raise e)) => (st'', Resumed (Raise e))
          | (st'', Cancelled) => (st'', Cancelled)
          end
      end
  end.

(** One pass through the body of the [while] loop, lines 171-204. *)
Definition iteration_c (self : plugin) (env : sched_env) (cancel : option Z)
                       (cron_expr : string) (st : sched_state)
  : sched_state * awaited ctl :=
  match try_block_c self env cancel cron_expr st with
  | (st', Resumed (Ok c)) => (st', Resumed c)
  | (st', Resumed (Raise e)) =>
      match sleep_c cancel cooldown_us (emit (EvLog (SchedError e)) st') with
      | (st'', Resumed _) => (st'', Resumed Continue)
      | (st'', Cancelled) => (st'', Cancelled)
      end
  | (st', Cancelled) => (st', Cancelled)
  end.

(** The [while] loop, for at most [passes] passes; a cancellation ends
    the task as a [break] does. *)
Fixpoint while_loop_c (self : plugin) (env : sched_env) (cancel : option Z)
                      (cron_expr : string) (passes : nat) (st : sched_state)
  : sched_state * outcome :=
  match passes with
  | O => (st, Running)
  | S n =>
      if stop_backup env (clock st) then (st, Exited)
      else match iteration_c self env cancel cron_expr st with
           | (st', Cancelled) => (st', Exited)
           | (st', Resumed Break) => (st', Exited)
           | (st', Resumed Continue) => while_loop_c self env cancel cron_expr n st'
           end
  end.

(* ================================================================== *)
(** * Part II.  Properties                                             *)
(* ================================================================== *)

(** ** Strings and paths *)

Lemma str_in_In (x : string) (l : list string) :
  PyStr.str_in x l = true <-> In x l.
Proof.
  unfold PyStr.str_in. rewrite existsb_exists. split.
  - intros [y [Hy E]]. apply String.eqb_eq in E. now subst.
  - intros H. exists x. split; [assumption | apply String.eqb_refl].
Qed.

Lemma str_in_false (x : string) (l : list string) :
  PyStr.str_in x l = false -> ~ In x l.
Proof.
  intros E H. apply str_in_In in H. congruence.
Qed.

Lemma rfind_app (c : ascii) (s t : string) :
  PyStr.rfind c (s ++ t) =
  match PyStr.rfind c t with
  | Some i => Some (String.length s + i)
  | None => PyStr.rfind c s
  end.
Proof.
  induction s as [| a s IH]; simpl.
  - destruct (PyStr.rfind c t); reflexivity.
  - rewrite IH. destruct (PyStr.rfind c t); reflexivity.
Qed.

Lemma substring_past (s t : string) (n : nat) :
  substring (String.length s) n (s ++ t) = substring 0 n t.
Proof.
  induction s as [| a s IH]; simpl; [reflexivity | exact IH].
Qed.

Lemma length_append (s t : string) :
  String.length (s ++ t) = String.length s + String.length t.
Proof.
  induction s as [| a s IH]; simpl; [reflexivity | now rewrite IH].
Qed.

(** A name without a dot, followed by [.zip], has the suffix [.zip]. *)
Lemma suffix_zip (s : string) :
  PyStr.rfind "." s = None -> s <> EmptyString ->
  suffix_of_name (s ++ ".zip") = ".zip".
Proof.
  intros Hdot Hne. unfold suffix_of_name.
  rewrite rfind_app. cbn [PyStr.rfind Ascii.eqb Bool.eqb].
  rewrite Nat.add_0_r, length_append. cbn [String.length].
  assert (0 < String.length s) as Hlen.
  { destruct s; [congruence | simpl; lia]. }
  replace (0 <? String.length s)%nat with true by (symmetry; apply Nat.ltb_lt; lia).
  replace (String.length s <? String.length s + 4 - 1)%nat with true
    by (symmetry; apply Nat.ltb_lt; lia).
  cbn [andb].
  replace (String.length s + 4 - String.length s) with 4 by lia.
  rewrite substring_past. reflexivity.
Qed.

Lemma digit_not_dot (n : nat) : Ascii.eqb (digit n) "." = false.
Proof.
  unfold digit.
  assert (n mod 10 < 10) as H by (apply Nat.mod_upper_bound; lia).
  revert H. generalize (n mod 10). intros m H.
  do 10 (destruct m as [| m]; [reflexivity |]). lia.
Qed.

Lemma rfind_fmt2 (n : nat) : PyStr.rfind "." (fmt2 n) = None.
Proof.
  unfold fmt2. cbn [PyStr.rfind]. now rewrite !digit_not_dot.
Qed.

Lemma rfind_fmt4 (n : nat) : PyStr.rfind "." (fmt4 n) = None.
Proof.
  unfold fmt4. cbn [PyStr.rfind]. now rewrite rfind_fmt2, !digit_not_dot.
Qed.

Lemma rfind_strftime (t : datetime) : PyStr.rfind "." (strftime t) = None.
Proof.
  unfold strftime.
  rewrite !rfind_app, !rfind_fmt2, rfind_fmt4. reflexivity.
Qed.

Lemma append_assoc (a b c : string) : ((a ++ b) ++ c = a ++ (b ++ c))%string.
Proof.
  induction a as [| x a IH]; simpl; [reflexivity | now rewrite IH].
Qed.

(** The generated file name follows the naming convention that
    [_create_backup] filters on. *)
Lemma generated_name_is_backup (now : datetime) (dir : path) :
  is_backup_name (dir ++ [_generate_backup_filename now]) = true.
Proof.
  unfold is_backup_name, suffix, name. rewrite last_last.
  unfold _generate_backup_filename. apply andb_true_iff. split.
  - unfold PyStr.startswith, backup_prefix. simpl. reflexivity.
  - apply String.eqb_eq. rewrite <- append_assoc. apply suffix_zip.
    + rewrite rfind_app, rfind_strftime. reflexivity.
    + discriminate.
Qed.

Lemma excluded_dir_not_kept (d : string) :
  In d default_exclude_dirs -> keep_dir d = false.
Proof.
  unfold default_exclude_dirs. simpl.
  intros [H | [H | [H | [H | []]]]]; subst; reflexivity.
Qed.

Lemma kept_dir_not_excluded (d : string) :
  keep_dir d = true -> ~ In d default_exclude_dirs.
Proof.
  intros Hk Hin. apply excluded_dir_not_kept in Hin. congruence.
Qed.

(** ** Steps that leave part of the state alone *)

Section Keeps.
Context {B : Type} (proj : state -> B).

Lemma keeps_ret {A : Type} (a : A) : keeps proj (ret a).
Proof. intros s. reflexivity. Qed.

Lemma keeps_raise {A : Type} (e : string) : keeps proj (raise (A := A) e).
Proof. intros s. reflexivity. Qed.

Lemma keeps_bind {A C : Type} (m : M A) (k : A -> M C) :
  keeps proj m -> (forall a, keeps proj (k a)) -> keeps proj (bind m k).
Proof.
  intros Hm Hk s. unfold bind. specialize (Hm s).
  destruct (m s) as [[a | e] s1]; simpl in *.
  - now rewrite Hk.
  - assumption.
Qed.

Lemma keeps_try_except {A : Type} (m : M A) (h : string -> M A) :
  keeps proj m -> (forall e, keeps proj (h e)) -> keeps proj (try_except m h).
Proof.
  intros Hm Hh s. unfold try_except. specialize (Hm s).
  destruct (m s) as [[a | e] s1]; simpl in *.
  - assumption.
  - now rewrite Hh.
Qed.

Lemma keeps_for_each {A : Type} (l : list A) (body : A -> M unit) :
  (forall x, In x l -> keeps proj (body x)) -> keeps proj (for_each l body).
Proof.
  induction l as [| x l IH]; intros H; simpl.
  - apply keeps_ret.
  - apply keeps_bind.
    + apply H. now left.
    + intros _. apply IH. intros y Hy. apply H. now right.
Qed.

Lemma keeps_may_raise (fault : option string) : keeps proj (may_raise fault).
Proof. destruct fault; [apply keeps_raise | apply keeps_ret]. Qed.

End Keeps.

Lemma keeps_zip_logger (r : log_record) : keeps st_zip (logger r).
Proof. intros s. reflexivity. Qed.

Lemma keeps_dir_logger (r : log_record) : keeps st_dir (logger r).
Proof. intros s. reflexivity. Qed.

Lemma keeps_zip_unlink (d : dirent) : keeps st_zip (unlink d).
Proof. intros s. unfold unlink. now destruct (d_unlink d). Qed.

Lemma keeps_zip_delete_old (dir : path) (d : dirent) : keeps st_zip (delete_old dir d).
Proof.
  unfold delete_old. apply keeps_try_except.
  - apply keeps_bind; [apply keeps_zip_unlink | intros _; apply keeps_zip_logger].
  - intros e. apply keeps_zip_logger.
Qed.

Lemma keeps_sort_by_mtime {B : Type} (proj : state -> B) (l : list dirent) :
  keeps proj (sort_by_mtime l).
Proof. intros s. unfold sort_by_mtime. now destruct (mtime_keys l). Qed.

Lemma keeps_zip_cleanup (self : plugin) (dir : path) :
  keeps st_zip (_cleanup_old_backups self dir).
Proof.
  unfold _cleanup_old_backups. apply keeps_try_except.
  - destruct (_ <=? _)%Z; [apply keeps_ret |].
    apply keeps_bind; [intros s; reflexivity | intros l0].
    apply keeps_bind; [apply keeps_sort_by_mtime | intros l1].
    apply keeps_bind; [| intros _; apply keeps_ret].
    destruct (_ <? _)%Z; [| apply keeps_ret].
    apply keeps_for_each. intros d _. apply keeps_zip_delete_old.
  - intros e. apply keeps_bind; [apply keeps_zip_logger | intros _; apply keeps_ret].
Qed.

(** ** Loop invariants *)

Lemma for_each_inv {A : Type} (I : state -> Prop) (body : A -> M unit) (l : list A) :
  (forall x s, In x l -> I s -> I (snd (body x s))) ->
  forall s, I s -> I (snd (for_each l body s)).
Proof.
  induction l as [| x l IH]; intros Hbody s Hs; simpl.
  - assumption.
  - unfold bind. pose proof (Hbody x s (or_introl eq_refl) Hs) as Hx.
    destruct (body x s) as [[u | e] s1]; simpl in *.
    + apply IH; [| assumption]. intros y s2 Hy. apply Hbody. now right.
    + assumption.
Qed.

(** ** The directory walk *)

Lemma node_induction (P : node -> Prop) :
  (forall f, P (File f)) ->
  (forall d cs, Forall P cs -> P (Dir d cs)) ->
  forall n, P n.
Proof.
  intros Hfile Hdir. fix IH 1. intros [f | d cs].
  - apply Hfile.
  - apply Hdir. induction cs as [| c cs IHcs]; constructor.
    + apply IH.
    + exact IHcs.
Qed.

(** Every directory the walk visits is reached through kept directories
    only, and the files it lists there are files of the tree. *)
Lemma os_walk_sound (keep : string -> bool) (n : node) :
  forall base root dirs files,
    In (root, dirs, files) (os_walk keep base n) ->
    exists rel,
      root = base ++ rel
      /\ Forall (fun d => keep d = true) rel
      /\ forall f, In f files -> In (rel ++ [f]) (files_under n).
Proof.
  induction n as [f | d cs IH] using node_induction; intros base root dirs files Hin.
  - contradiction.
  - simpl in Hin. destruct Hin as [Heq | Hin].
    + injection Heq as <- <- <-. exists []. rewrite app_nil_r.
      split; [reflexivity | split; [constructor |]].
      intros f Hf. simpl. unfold filenames in Hf.
      apply in_flat_map in Hf. destruct Hf as [c [Hc Hf]].
      apply in_flat_map. exists c. split; [assumption |].
      destruct c as [g | g gs]; simpl in *; [| contradiction].
      destruct Hf as [-> | []]. now left.
    + apply in_flat_map in Hin. destruct Hin as [c [Hc Hin]].
      rewrite Forall_forall in IH. specialize (IH c Hc).
      destruct c as [g | g gs]; [contradiction |].
      destruct (keep g) eqn:Hk; [| contradiction].
      destruct (IH _ _ _ _ Hin) as [rel [-> [Hrel Hfiles]]].
      exists (g :: rel). rewrite <- app_assoc. split; [reflexivity |].
      split; [constructor; assumption |].
      intros f Hf. simpl. apply in_flat_map. exists (Dir g gs).
      split; [assumption |]. apply in_map. now apply Hfiles.
Qed.

Lemma relative_to_app (base rel : path) : relative_to (base ++ rel) base = Some rel.
Proof.
  induction base as [| b base IH]; simpl; [reflexivity |].
  now rewrite String.eqb_refl.
Qed.

Lemma name_snoc (p : path) (f : string) : name (p ++ [f]) = f.
Proof. unfold name. apply last_last. Qed.

Lemma preserves_bind {A C : Type} (I : state -> Prop) (m : M A) (k : A -> M C) :
  preserves I m -> (forall a, preserves I (k a)) -> preserves I (bind m k).
Proof.
  intros Hm Hk s Hs. unfold bind. specialize (Hm s Hs).
  destruct (m s) as [[a | e] s1]; simpl in *.
  - now apply Hk.
  - assumption.
Qed.

Lemma preserves_for_each {A : Type} (I : state -> Prop) (l : list A) (body : A -> M unit) :
  (forall x, In x l -> preserves I (body x)) -> preserves I (for_each l body).
Proof.
  intros H s Hs. apply for_each_inv; [| assumption].
  intros x s1 Hx. now apply H.
Qed.

(** ** The archive builder *)

Section Builder.
Variables (self : plugin) (w : world).

Let good (s : state) : Prop := Forall (admissible (w_tree w)) (entries s).

Lemma is_backup_name_snoc (p q : path) (f : string) :
  is_backup_name (p ++ [f]) = is_backup_name (q ++ [f]).
Proof. unfold is_backup_name, suffix. now rewrite !name_snoc. Qed.

Lemma keeps_zip_good {A : Type} (m : M A) : keeps st_zip m -> preserves good m.
Proof. intros H s Hs. unfold good, entries in *. now rewrite H. Qed.

Lemma add_file_good (rel : path) (file : string) :
  Forall (fun d => keep_dir d = true) rel ->
  In (rel ++ [file]) (files_under (w_tree w)) ->
  preserves good (add_file self w (astrbot_path self ++ rel) file).
Proof.
  intros Hrel Hfile s Hs. unfold add_file.
  destruct (PyStr.str_in _ excluded_suffixes) eqn:Hsuf; [exact Hs |].
  destruct (is_backup_name _) eqn:Hbak; [exact Hs |].
  rewrite <- app_assoc, relative_to_app. unfold zip_write.
  destruct (w_write w _); [exact Hs |].
  unfold good, entries in *. simpl.
  apply Forall_app. split; [exact Hs |].
  constructor; [| constructor].
  split; [assumption |]. exists rel, file. split; [reflexivity |].
  split; [| split].
  - intros d Hd. apply kept_dir_not_excluded.
    rewrite Forall_forall in Hrel. now apply Hrel.
  - apply str_in_false. unfold suffix in Hsuf.
    now rewrite name_snoc in Hsuf.
  - rewrite <- Hbak. apply is_backup_name_snoc.
Qed.

Lemma write_tree_good : preserves good (write_tree self w).
Proof.
  unfold write_tree. apply preserves_for_each.
  intros [[root dirs] files] Hin.
  apply os_walk_sound in Hin. destruct Hin as [rel [-> [Hrel Hfiles]]].
  apply preserves_for_each. intros file Hf.
  apply add_file_good; [assumption | now apply Hfiles].
Qed.

Lemma with_zipfile_good (fname : string) :
  preserves good (with_zipfile w fname (write_tree self w)).
Proof.
  intros s Hs. unfold with_zipfile.
  destruct (w_open w); [exact Hs |].
  match goal with |- context [write_tree self w ?s1] =>
    assert (good (snd (write_tree self w s1))) as H
      by (apply write_tree_good; constructor);
    destruct (write_tree self w s1) as [[u | e] s2]
  end; simpl in H.
  - apply keeps_zip_good; [apply keeps_may_raise | exact H].
  - destruct (w_close w); exact H.
Qed.

Lemma build_archive_good : preserves good (build_archive self w).
Proof.
  unfold build_archive.
  apply preserves_bind;
    [apply keeps_zip_good, keeps_zip_logger | intros _].
  apply preserves_bind;
    [apply keeps_zip_good, keeps_may_raise | intros _].
  apply preserves_bind; [apply with_zipfile_good | intros _].
  apply preserves_bind; [intros s Hs; exact Hs | intros n].
  apply preserves_bind;
    [apply keeps_zip_good, keeps_zip_logger | intros _].
  intros s Hs. exact Hs.
Qed.

Lemma create_backup_zip (s : state) :
  st_zip (snd (_create_backup self w s)) = st_zip (snd (build_archive self w s)).
Proof.
  unfold _create_backup, bind.
  destruct (build_archive self w s) as [[n | e] s1]; simpl; [| reflexivity].
  pose proof (keeps_zip_cleanup self (_get_backup_path self) s1) as Hc.
  destruct (_cleanup_old_backups self (_get_backup_path self) s1) as [[v | e] s2];
    simpl in *; assumption.
Qed.

(** Whatever happens during the attempt, the archive holds admissible
    entries only. *)
Lemma entries_admissible (s : state) :
  st_zip s = None ->
  Forall (admissible (w_tree w)) (entries (snd (_create_backup self w s))).
Proof.
  intros Hs. unfold entries. rewrite create_backup_zip.
  apply build_archive_good. unfold good, entries. rewrite Hs. constructor.
Qed.

End Builder.

(** C1.  No entry of a produced archive is a file below a directory
    named in the exclusion list, and none has an excluded suffix; the
    walk itself only ever opens directories reached through directories
    outside the exclusion list, because the excluded ones are filtered
    out before the descent. *)
Theorem C1_excluded_files_never_archived (self : plugin) (w : world) (s : state) :
  st_zip s = None ->
  (forall entry, In entry (entries (snd (_create_backup self w s))) ->
     In entry (files_under (w_tree w))
     /\ exists dirs file,
         entry = dirs ++ [file]
         /\ (forall d, In d dirs -> ~ In d default_exclude_dirs)
         /\ ~ In (suffix_of_name file) excluded_suffixes)
  /\ (forall root dirs files,
        In (root, dirs, files) (os_walk keep_dir (astrbot_path self) (w_tree w)) ->
        exists rel,
          root = astrbot_path self ++ rel
          /\ forall d, In d rel -> ~ In d default_exclude_dirs).
Proof.
  intros Hs. split.
  - intros entry Hin.
    pose proof (entries_admissible self w s Hs) as H.
    rewrite Forall_forall in H. destruct (H entry Hin) as [Hfile [dirs [file [E [Hd [Hsuf _]]]]]].
    split; [assumption |]. now exists dirs, file.
  - intros root dirs files Hin.
    apply os_walk_sound in Hin. destruct Hin as [rel [-> [Hrel _]]].
    exists rel. split; [reflexivity |].
    intros d Hd. apply kept_dir_not_excluded.
    rewrite Forall_forall in Hrel. now apply Hrel.
Qed.

Lemma C1_witness :
  st_zip demo_state = None
  /\ In ["app"; "main.bin"] (entries (snd (_create_backup demo_plugin demo_world demo_state)))
  /\ exists dirs file,
      ["app"; "main.bin"] = dirs ++ [file]
      /\ (forall d, In d dirs -> ~ In d default_exclude_dirs)
      /\ ~ In (suffix_of_name file) excluded_suffixes.
Proof.
  split; [reflexivity |]. split; [vm_compute; auto |].
  apply (proj1 (C1_excluded_files_never_archived demo_plugin demo_world demo_state eq_refl)).
  vm_compute; auto.
Defined.

(** C2.  No file named like a backup (prefix [astrbot_backup_], suffix
    [.zip]) becomes an entry of the archive; the name generated for the
    archive itself is such a name, so the archive never contains an
    entry of its own file name. *)
Theorem C2_backups_never_archived (self : plugin) (w : world) (s : state) :
  st_zip s = None ->
  forall entry, In entry (entries (snd (_create_backup self w s))) ->
    ~ (PyStr.startswith (name entry) "astrbot_backup_" = true
       /\ suffix entry = ".zip")
    /\ name entry <> _generate_backup_filename (w_now w).
Proof.
  intros Hs entry Hin.
  pose proof (entries_admissible self w s Hs) as H.
  rewrite Forall_forall in H.
  destruct (H entry Hin) as [_ [dirs [file [E [_ [_ Hbak]]]]]].
  split.
  - intros [Hp Hz]. unfold is_backup_name in Hbak.
    unfold backup_prefix in Hbak. rewrite Hp, Hz in Hbak. discriminate.
  - intros Hname. subst entry. rewrite name_snoc in Hname. subst file.
    rewrite generated_name_is_backup in Hbak. discriminate.
Qed.

Lemma C2_witness :
  st_zip demo_state = None
  /\ In ["data"; "config.json"]
        (entries (snd (_create_backup demo_plugin demo_world demo_state)))
  /\ name ["data"; "config.json"] <> _generate_backup_filename (w_now demo_world).
Proof.
  split; [reflexivity |]. split; [vm_compute; auto |].
  apply (C2_backups_never_archived demo_plugin demo_world demo_state eq_refl).
  vm_compute; auto.
Defined.

(** ** The naming convention as a glob *)

Lemma fnmatch_literal (c : ascii) (pat s : list ascii) :
  Ascii.eqb c "*" = false ->
  fnmatch (c :: pat) s = true <-> exists s', s = c :: s' /\ fnmatch pat s' = true.
Proof.
  intros Hc. cbn [fnmatch]. rewrite Hc. split.
  - destruct s as [| a s']; [discriminate |].
    intros H. apply andb_true_iff in H. destruct H as [E H].
    apply Ascii.eqb_eq in E. subst. now exists s'.
  - intros [s' [-> H]]. now rewrite Ascii.eqb_refl, H.
Qed.

Lemma fnmatch_star (pat s : list ascii) :
  fnmatch ("*"%char :: pat) s = true <->
  exists m t, s = m ++ t /\ fnmatch pat t = true.
Proof.
  cbn [fnmatch]. rewrite Ascii.eqb_refl.
  induction s as [| a s IH].
  - split.
    + intros H. rewrite orb_false_r in H. now exists [], [].
    + intros [m [t [E H]]]. symmetry in E. apply app_eq_nil in E.
      destruct E as [-> ->]. now rewrite H.
  - split.
    + intros H. apply orb_true_iff in H. destruct H as [H | H].
      * now exists [], (a :: s).
      * apply IH in H. destruct H as [m [t [-> H]]]. now exists (a :: m), t.
    + intros [m [t [E H]]]. apply orb_true_iff.
      destruct m as [| b m]; simpl in E.
      * left. now subst.
      * right. injection E as <- ->. apply IH. now exists m, t.
Qed.

Lemma fnmatch_nil (s : list ascii) : fnmatch [] s = true <-> s = [].
Proof. destruct s; simpl; split; congruence. Qed.

Lemma fnmatch_literals (lit pat s : list ascii) :
  Forall (fun c => Ascii.eqb c "*" = false) lit ->
  fnmatch (lit ++ pat) s = true <-> exists s', s = lit ++ s' /\ fnmatch pat s' = true.
Proof.
  intros Hlit. revert s. induction Hlit as [| c lit Hc _ IH]; intros s.
  - simpl. split; [intros H; now exists s | now intros [s' [-> H]]].
  - rewrite <- app_comm_cons, fnmatch_literal by exact Hc. split.
    + intros [s1 [-> H]]. apply IH in H. destruct H as [s' [-> H]]. now exists s'.
    + intros [s' [-> H]]. exists (lit ++ s'). split; [reflexivity |].
      apply IH. now exists s'.
Qed.

Lemma list_ascii_app (a b : string) :
  list_ascii_of_string (a ++ b) = list_ascii_of_string a ++ list_ascii_of_string b.
Proof.
  induction a as [| x a IH]; simpl; [reflexivity | now rewrite IH].
Qed.

Lemma list_ascii_inj (a b : string) :
  list_ascii_of_string a = list_ascii_of_string b -> a = b.
Proof.
  intros H. apply (f_equal string_of_list_ascii) in H.
  now rewrite !string_of_list_ascii_of_string in H.
Qed.

(** The glob matches exactly the names made of the prefix, anything,
    and [.zip]. *)
Lemma glob_match_convention (n : string) :
  glob_match backup_glob n = true <->
  exists stamp, n = ("astrbot_backup_" ++ stamp ++ ".zip")%string.
Proof.
  unfold glob_match, backup_glob.
  change (list_ascii_of_string "astrbot_backup_*.zip")
    with (list_ascii_of_string "astrbot_backup_"
          ++ "*"%char :: (list_ascii_of_string ".zip" ++ [])).
  rewrite fnmatch_literals by (repeat constructor).
  split.
  - intros [s' [E H]]. apply fnmatch_star in H. destruct H as [m [t [-> H]]].
    apply fnmatch_literals in H; [| repeat constructor].
    destruct H as [r [-> H]]. apply fnmatch_nil in H. subst r.
    exists (string_of_list_ascii m). apply list_ascii_inj.
    rewrite E, !list_ascii_app, list_ascii_of_string_of_list_ascii, app_nil_r.
    reflexivity.
  - intros [stamp ->]. exists (list_ascii_of_string (stamp ++ ".zip")).
    split; [apply list_ascii_app |].
    apply fnmatch_star. exists (list_ascii_of_string stamp), (list_ascii_of_string ".zip").
    split; [apply list_ascii_app |].
    apply fnmatch_literals; [repeat constructor |].
    exists []. split; [now rewrite app_nil_r | reflexivity].
Qed.

(** ** Sorting by modification time *)

Lemma mtime_keys_ok (l : list dirent) (ks : list (Z * dirent)) :
  mtime_keys l = Ok ks ->
  map snd ks = l /\ Forall (fun p => d_mtime (snd p) = Ok (fst p)) ks.
Proof.
  revert ks. induction l as [| d l IH]; simpl; intros ks H.
  - injection H as <-. split; [reflexivity | constructor].
  - destruct (d_mtime d) as [t | e] eqn:Ht; [| discriminate].
    destruct (mtime_keys l) as [ks' | e]; [| discriminate].
    injection H as <-. destruct (IH ks' eq_refl) as [E F].
    split; [simpl; now rewrite E | constructor; assumption].
Qed.

Lemma mtime_keys_defined (l : list dirent) :
  Forall (fun d => exists t, d_mtime d = Ok t) l -> exists ks, mtime_keys l = Ok ks.
Proof.
  induction 1 as [| d l [t Hd] _ [ks IH]]; simpl.
  - now exists [].
  - rewrite Hd, IH. now eexists.
Qed.

Lemma insert_desc_perm (x : Z * dirent) (l : list (Z * dirent)) :
  Permutation (insert_desc x l) (x :: l).
Proof.
  induction l as [| y l IH]; simpl; [reflexivity |].
  destruct (fst x <? fst y)%Z; [| reflexivity].
  rewrite IH. apply perm_swap.
Qed.

Lemma sort_desc_perm (l : list (Z * dirent)) : Permutation (sort_desc l) l.
Proof.
  induction l as [| x l IH]; simpl; [reflexivity |].
  rewrite insert_desc_perm. now constructor.
Qed.

Lemma insert_desc_sorted (x : Z * dirent) (l : list (Z * dirent)) :
  StronglySorted desc l -> StronglySorted desc (insert_desc x l).
Proof.
  induction 1 as [| y l Hl IH Hy]; simpl.
  - repeat constructor.
  - destruct (fst x <? fst y)%Z eqn:E.
    + constructor; [assumption |].
      rewrite (insert_desc_perm x l). constructor; [| assumption].
      unfold desc. apply Z.ltb_lt in E. lia.
    + apply Z.ltb_ge in E. constructor; [now constructor |].
      constructor; [exact E |].
      eapply Forall_impl; [| exact Hy]. unfold desc. intros z Hz. lia.
Qed.

Lemma sort_desc_sorted (l : list (Z * dirent)) : StronglySorted desc (sort_desc l).
Proof.
  induction l as [| x l IH]; simpl; [constructor | now apply insert_desc_sorted].
Qed.

Lemma sorted_split {A : Type} (R : A -> A -> Prop) (a b : list A) :
  StronglySorted R (a ++ b) -> forall x y, In x a -> In y b -> R x y.
Proof.
  induction a as [| h a IH]; simpl; intros H x y Hx Hy; [contradiction |].
  inversion H as [| ? ? Hs Hf]; subst. destruct Hx as [-> | Hx].
  - rewrite Forall_forall in Hf. apply Hf. apply in_or_app. now right.
  - now apply IH.
Qed.

(** ** Deleting the old backups *)

Lemma str_in_cons (x a : string) (l : list string) :
  PyStr.str_in x (a :: l) = String.eqb x a || PyStr.str_in x l.
Proof. reflexivity. Qed.

Lemma filter_filter {A : Type} (f g : A -> bool) (l : list A) :
  filter f (filter g l) = filter (fun x => g x && f x) l.
Proof.
  induction l as [| x l IH]; simpl; [reflexivity |].
  destruct (g x); simpl; [destruct (f x) |]; now rewrite IH.
Qed.

Lemma delete_old_eq (backup_dir : path) (d : dirent) (s : state) :
  delete_old backup_dir d s =
  (Ok tt,
   mkState (if can_unlink d
            then filter (fun x => negb (String.eqb (d_name x) (d_name d))) (st_dir s)
            else st_dir s)
           (st_zip s)
           (st_log s ++ [delete_record backup_dir d])).
Proof.
  unfold delete_old, try_except, bind, unlink, logger, delete_record, can_unlink.
  destruct (d_unlink d); reflexivity.
Qed.

Lemma filter_true {A : Type} (l : list A) : filter (fun _ => true) l = l.
Proof. induction l as [| x l IH]; simpl; [reflexivity | now rewrite IH]. Qed.

(** The names that deleting the list [l] removes from the directory. *)
Lemma delete_all (backup_dir : path) (l : list dirent) (s : state) :
  for_each l (delete_old backup_dir) s =
  (Ok tt,
   mkState (filter (fun x => negb (PyStr.str_in (d_name x)
                                     (map d_name (filter can_unlink l))))
                   (st_dir s))
           (st_zip s)
           (st_log s ++ map (delete_record backup_dir) l)).
Proof.
  revert s. induction l as [| d l IH]; intros s.
  - simpl. unfold ret. destruct s as [dir z lg]. simpl.
    now rewrite app_nil_r, filter_true.
  - cbn [for_each]. unfold bind. rewrite delete_old_eq, IH.
    cbn [st_dir st_zip st_log map filter]. rewrite <- app_assoc.
    f_equal. f_equal.
    destruct (can_unlink d); [| reflexivity].
    rewrite filter_filter. apply filter_ext. intros x.
    cbn [map]. rewrite str_in_cons, negb_orb. reflexivity.
Qed.

(** What [_cleanup_old_backups] comes to, case by case. *)
Lemma cleanup_cases (self : plugin) (backup_dir : path) (s : state) :
  _cleanup_old_backups self backup_dir s =
  (Ok PyNone,
   if (get (cfg_max_backups (cfg self)) 5 <=? 0)%Z then s
   else match mtime_keys (glob_backups (st_dir s)) with
        | Raise e => mkState (st_dir s) (st_zip s) (st_log s ++ [LogCleanupFailed e])
        | Ok _ =>
            let l := old_backups self s in
            match l with
            | [] => s
            | _ :: _ =>
                mkState (filter (fun x => negb (PyStr.str_in (d_name x)
                                                  (map d_name (filter can_unlink l))))
                                (st_dir s))
                        (st_zip s)
                        (st_log s ++ map (delete_record backup_dir) l)
            end
        end).
Proof.
  unfold _cleanup_old_backups, old_backups, try_except, bind, sort_by_mtime, ret.
  destruct (_ <=? 0)%Z eqn:HK; [reflexivity |].
  destruct (mtime_keys _) as [ks | e]; cbn [fst snd]; [| reflexivity].
  destruct (_ <? _)%Z eqn:Hlt; [| reflexivity].
  rewrite delete_all.
  destruct (skipn _ _) eqn:Hsk; [| reflexivity].
  exfalso. apply Z.ltb_lt in Hlt. apply Z.leb_gt in HK.
  apply (f_equal (@List.length _)) in Hsk. rewrite length_skipn in Hsk.
  simpl in Hsk. lia.
Qed.

(** ** Retention: what is deleted and what is logged *)

Section Retention.
Variables (self : plugin) (backup_dir : path) (s : state).

Let s' : state := snd (_cleanup_old_backups self backup_dir s).
Let gone : list string := map d_name (filter can_unlink (old_backups self s)).

Lemma cleanup_returns_none :
  fst (_cleanup_old_backups self backup_dir s) = Ok PyNone.
Proof. now rewrite cleanup_cases. Qed.

Lemma old_backups_nil_of_raise (e : string) :
  mtime_keys (glob_backups (st_dir s)) = Raise e -> old_backups self s = [].
Proof.
  intros H. unfold old_backups. rewrite H. now destruct (_ <=? _)%Z.
Qed.

Lemma old_backups_nil_of_disabled :
  (get (cfg_max_backups (cfg self)) 5 <= 0)%Z -> old_backups self s = [].
Proof.
  intros H. unfold old_backups. apply Z.leb_le in H. now rewrite H.
Qed.

Lemma cleanup_dir :
  st_dir s' = filter (fun x => negb (PyStr.str_in (d_name x) gone)) (st_dir s).
Proof.
  unfold s', gone. rewrite cleanup_cases. cbn [snd].
  destruct (_ <=? 0)%Z eqn:HK.
  - apply Z.leb_le in HK. rewrite old_backups_nil_of_disabled by exact HK.
    simpl. now rewrite filter_true.
  - destruct (mtime_keys _) as [ks | e] eqn:Hk.
    + cbv zeta. destruct (old_backups self s) eqn:Ho; [| reflexivity].
      simpl. now rewrite filter_true.
    + rewrite (old_backups_nil_of_raise _ Hk). simpl. now rewrite filter_true.
Qed.

Lemma cleanup_log :
  exists recs,
    st_log s' = st_log s ++ recs
    /\ (recs = map (delete_record backup_dir) (old_backups self s)
        \/ old_backups self s = [] /\ exists e, recs = [LogCleanupFailed e]).
Proof.
  unfold s'. rewrite cleanup_cases. cbn [snd].
  destruct (_ <=? 0)%Z eqn:HK.
  - apply Z.leb_le in HK. exists []. rewrite app_nil_r.
    split; [reflexivity | left].
    now rewrite old_backups_nil_of_disabled.
  - destruct (mtime_keys _) as [ks | e] eqn:Hk.
    + cbv zeta. destruct (old_backups self s) eqn:Ho.
      * exists []. rewrite app_nil_r. split; [reflexivity | now left].
      * eexists. split; [reflexivity | now left].
    + exists [LogCleanupFailed e]. split; [reflexivity | right].
      split; [now apply (old_backups_nil_of_raise _ Hk) | now exists e].
Qed.

Lemma old_backups_are_backups (d : dirent) :
  In d (old_backups self s) -> In d (glob_backups (st_dir s)).
Proof.
  unfold old_backups. destruct (_ <=? 0)%Z; [contradiction |].
  destruct (mtime_keys _) as [ks | e] eqn:Hk; [| contradiction].
  destruct (_ <? _)%Z; [| contradiction].
  intros H. destruct (mtime_keys_ok _ _ Hk) as [E _]. rewrite <- E.
  apply (Permutation_in d (Permutation_map snd (sort_desc_perm ks))).
  rewrite <- (firstn_skipn (Z.to_nat (get (cfg_max_backups (cfg self)) 5%Z))).
  apply in_or_app. now right.
Qed.

Lemma old_backups_length :
  (Z.of_nat (List.length (old_backups self s))
   <= Z.max 0 (Z.of_nat (List.length (glob_backups (st_dir s)))
               - get (cfg_max_backups (cfg self)) 5))%Z.
Proof.
  unfold old_backups. destruct (_ <=? 0)%Z eqn:HK; [simpl; lia |].
  destruct (mtime_keys _) as [ks | e] eqn:Hk; [| simpl; lia].
  destruct (_ <? _)%Z; [| simpl; lia].
  destruct (mtime_keys_ok _ _ Hk) as [E _].
  apply Z.leb_gt in HK.
  rewrite length_skipn, length_map, (Permutation_length (sort_desc_perm ks)).
  rewrite <- E, length_map. lia.
Qed.

Lemma gone_are_backups (n : string) :
  In n gone -> exists d, In d (glob_backups (st_dir s)) /\ d_name d = n.
Proof.
  unfold gone. intros H. apply in_map_iff in H. destruct H as [d [E H]].
  apply filter_In in H. destruct H as [H _].
  exists d. split; [now apply old_backups_are_backups | assumption].
Qed.

Lemma gone_length : List.length gone <= List.length (old_backups self s).
Proof. unfold gone. rewrite length_map. apply filter_length_le. Qed.

(** A name leaves the directory exactly when it is one of [gone]. *)
Lemma left_directory (n : string) :
  In n (listing s) /\ ~ In n (listing s') <-> In n gone.
Proof.
  unfold listing. rewrite cleanup_dir. split.
  - intros [Hin Hout]. apply in_map_iff in Hin. destruct Hin as [x [<- Hx]].
    destruct (PyStr.str_in (d_name x) gone) eqn:E; [now apply str_in_In |].
    exfalso. apply Hout. apply in_map. apply filter_In. split; [assumption |].
    now rewrite E.
  - intros Hin. split.
    + destruct (gone_are_backups _ Hin) as [d [Hd <-]].
      apply in_map. unfold glob_backups in Hd. now apply filter_In in Hd.
    + intros Hout. apply in_map_iff in Hout. destruct Hout as [x [<- Hx]].
      apply filter_In in Hx. destruct Hx as [_ Hx].
      apply str_in_In in Hin. rewrite Hin in Hx. discriminate.
Qed.

End Retention.

Lemma deleted_paths_of_records (backup_dir : path) (l : list dirent) (n : string) :
  In (backup_dir ++ [n]) (deleted_paths (map (delete_record backup_dir) l))
  <-> In n (map d_name (filter can_unlink l)).
Proof.
  induction l as [| d l IH]; simpl; [reflexivity |].
  unfold delete_record at 1, can_unlink at 1.
  destruct (d_unlink d); simpl; [exact IH |].
  rewrite IH. split; (intros [H | H]; [left | now right]).
  - apply app_inv_head in H. now injection H.
  - now subst.
Qed.

(** Names stay distinct in any selection from a directory listing. *)
Lemma names_distinct_filter (p : dirent -> bool) (l : list dirent) :
  NoDup (map d_name l) -> NoDup (map d_name (filter p l)).
Proof.
  intros H. induction l as [| x l IH]; [constructor |].
  simpl in H. apply NoDup_cons_iff in H. destruct H as [Hx Hl].
  simpl. destruct (p x); [| now apply IH].
  simpl. apply NoDup_cons; [| now apply IH].
  intros Hin. apply Hx. apply in_map_iff in Hin. destruct Hin as [y [E Hy]].
  apply filter_In in Hy. rewrite <- E. apply in_map. tauto.
Qed.

(** C4.  Pruning removes nothing but files named after the archive
    convention, adds nothing, removes at most [count - max_backups]
    files (none when that is not positive), and removes nothing at all
    when [max_backups <= 0]. *)
Theorem C4_pruning_is_bounded (self : plugin) (backup_dir : path) (s : state) :
  NoDup (listing s) ->
  (forall x, In x (st_dir s) ->
     ~ In x (st_dir (snd (_cleanup_old_backups self backup_dir s))) ->
     exists stamp, d_name x = ("astrbot_backup_" ++ stamp ++ ".zip")%string)
  /\ (forall x, In x (st_dir (snd (_cleanup_old_backups self backup_dir s))) ->
        In x (st_dir s))
  /\ (Z.of_nat (List.length (st_dir s))
      - Z.of_nat (List.length (st_dir (snd (_cleanup_old_backups self backup_dir s))))
      <= Z.max 0 (Z.of_nat (List.length (glob_backups (st_dir s)))
                  - get (cfg_max_backups (cfg self)) 5))%Z
  /\ ((get (cfg_max_backups (cfg self)) 5 <= 0)%Z ->
      snd (_cleanup_old_backups self backup_dir s) = s).
Proof.
  intros Hnd. rewrite cleanup_dir.
  set (gone := map d_name (filter can_unlink (old_backups self s))).
  repeat split.
  - intros x Hx Hout.
    assert (In (d_name x) gone) as Hg.
    { destruct (PyStr.str_in (d_name x) gone) eqn:E; [now apply str_in_In |].
      exfalso. apply Hout. apply filter_In. split; [assumption | now rewrite E]. }
    destruct (gone_are_backups self s _ Hg) as [d [Hd E]].
    apply filter_In in Hd. destruct Hd as [_ Hd].
    rewrite E in Hd. now apply glob_match_convention.
  - intros x Hx. now apply filter_In in Hx.
  - pose proof (filter_length
                  (fun x => negb (PyStr.str_in (d_name x) gone)) (st_dir s)) as Hlen.
    set (out := filter (fun x => negb (negb (PyStr.str_in (d_name x) gone))) (st_dir s)) in *.
    assert (List.length out <= List.length gone) as Hout.
    { rewrite <- (length_map d_name out). apply NoDup_incl_length.
      - apply names_distinct_filter. exact Hnd.
      - intros n Hn. apply in_map_iff in Hn. destruct Hn as [x [<- Hx]].
        apply filter_In in Hx. destruct Hx as [_ Hx].
        rewrite negb_involutive in Hx. now apply str_in_In. }
    pose proof (gone_length self s) as Hg. fold gone in Hg.
    pose proof (old_backups_length self s) as Ho.
    lia.
  - intros HK. rewrite cleanup_cases. cbn [snd].
    apply Z.leb_le in HK. now rewrite HK.
Qed.

Lemma C4_witness :
  NoDup (listing demo_state)
  /\ (Z.of_nat (List.length (st_dir demo_state))
      - Z.of_nat (List.length
                    (st_dir (snd (_cleanup_old_backups demo_plugin demo_backup_dir demo_state))))
      <= Z.max 0 (Z.of_nat (List.length (glob_backups (st_dir demo_state)))
                  - get (cfg_max_backups (cfg demo_plugin)) 5))%Z.
Proof.
  assert (NoDup (listing demo_state)) as H.
  { vm_compute. repeat constructor; simpl; intuition discriminate. }
  split; [exact H |].
  apply (C4_pruning_is_bounded demo_plugin demo_backup_dir demo_state H).
Defined.

(** C7, as the code has it.  The prune operation returns [None]; what
    it deleted is in the log, one record per deleted path, in the order
    of deletion.  With the seven archives of [demo_dir] and a cap of five
    it deletes exactly the two oldest, the sixth newest first, and leaves
    the five newest. *)
Theorem C7_prune_logs_what_it_deletes :
  (forall (self : plugin) (backup_dir : path) (s : state),
      fst (_cleanup_old_backups self backup_dir s) = Ok PyNone
      /\ exists recs,
          st_log (snd (_cleanup_old_backups self backup_dir s)) = st_log s ++ recs
          /\ forall n,
              In (backup_dir ++ [n]) (deleted_paths recs)
              <-> In n (listing s)
                  /\ ~ In n (listing (snd (_cleanup_old_backups self backup_dir s))))
  /\ snd (_cleanup_old_backups demo_plugin demo_backup_dir demo_state)
     = mkState [backup_named "20250103_000000" 30;
                backup_named "20250107_000000" 70;
                mkDirent "notes.txt" (Ok 5%Z) None;
                backup_named "20250105_000000" 50;
                backup_named "20250106_000000" 60;
                backup_named "20250104_000000" 40]
               None
               [LogDeleted ["/"; "srv"; "astrbot_backup_20250102_000000.zip"];
                LogDeleted ["/"; "srv"; "astrbot_backup_20250101_000000.zip"]].
Proof.
  split; [| vm_compute; reflexivity].
  intros self backup_dir s. split; [apply cleanup_returns_none |].
  destruct (cleanup_log self backup_dir s) as [recs [Hlog Hrecs]].
  exists recs. split; [exact Hlog |]. intros n.
  rewrite (left_directory self backup_dir s n).
  destruct Hrecs as [-> | [Hnil [e ->]]].
  - apply deleted_paths_of_records.
  - rewrite Hnil. simpl. reflexivity.
Qed.

(** C7 as stated fails on the scenario it names: two paths are deleted,
    and the value returned is [None], not their sequence. *)
Lemma C7_counterexample :
  deleted_paths (st_log (snd (_cleanup_old_backups demo_plugin demo_backup_dir demo_state)))
  = [["/"; "srv"; "astrbot_backup_20250102_000000.zip"];
     ["/"; "srv"; "astrbot_backup_20250101_000000.zip"]]
  /\ fst (_cleanup_old_backups demo_plugin demo_backup_dir demo_state)
     <> Ok (PyStrList ["/srv/astrbot_backup_20250102_000000.zip";
                       "/srv/astrbot_backup_20250101_000000.zip"]).
Proof.
  split; [vm_compute; reflexivity |].
  rewrite cleanup_returns_none. discriminate.
Qed.

(** ** Retention keeps the newest *)

Lemma NoDup_app_disjoint {A : Type} (l1 l2 : list A) (a : A) :
  NoDup (l1 ++ l2) -> In a l1 -> ~ In a l2.
Proof.
  induction l1 as [| x l1 IH]; simpl; intros H Ha; [contradiction |].
  inversion H as [| ? ? Hx Hl]; subst. destruct Ha as [-> | Ha].
  - intros Hin. apply Hx. apply in_or_app. now right.
  - now apply IH.
Qed.

Lemma NoDup_map_injective {A B : Type} (f : A -> B) (l : list A) (x y : A) :
  NoDup (map f l) -> In x l -> In y l -> f x = f y -> x = y.
Proof.
  induction l as [| a l IH]; simpl; intros H Hx Hy E; [contradiction |].
  inversion H as [| ? ? Ha Hl]; subst.
  destruct Hx as [-> | Hx], Hy as [-> | Hy]; try reflexivity.
  - exfalso. apply Ha. rewrite E. now apply in_map.
  - exfalso. apply Ha. rewrite <- E. now apply in_map.
  - now apply IH.
Qed.

Lemma filter_comm {A : Type} (f g : A -> bool) (l : list A) :
  filter f (filter g l) = filter g (filter f l).
Proof.
  rewrite !filter_filter. apply filter_ext. intros x. apply andb_comm.
Qed.

Section KeepsNewest.
Variables (self : plugin) (backup_dir : path) (s : state).

Let K : Z := get (cfg_max_backups (cfg self)) 5%Z.
Let old : list dirent := glob_backups (st_dir s).
Let s' : state := snd (_cleanup_old_backups self backup_dir s).

Hypothesis names_distinct : NoDup (listing s).
Hypothesis unlinkable : Forall (fun d => d_unlink d = None) (old_backups self s).
Hypothesis has_mtime : Forall (fun d => exists t, d_mtime d = Ok t) old.
Hypothesis mtimes_distinct : NoDup (map d_mtime old).
Hypothesis cap : (0 < K < Z.of_nat (List.length old))%Z.

Lemma old_names_distinct : NoDup (map d_name old).
Proof. apply names_distinct_filter. exact names_distinct. Qed.

Lemma sorted_keys :
  exists ks,
    mtime_keys old = Ok ks
    /\ old_backups self s = map snd (skipn (Z.to_nat K) (sort_desc ks))
    /\ Permutation old (map snd (firstn (Z.to_nat K) (sort_desc ks))
                        ++ old_backups self s).
Proof.
  destruct (mtime_keys_defined old has_mtime) as [ks Hk].
  destruct (mtime_keys_ok _ _ Hk) as [E _].
  assert (List.length (map snd (sort_desc ks)) = List.length old) as Hlen.
  { rewrite length_map, (Permutation_length (sort_desc_perm ks)), <- E.
    now rewrite length_map. }
  assert (old_backups self s = map snd (skipn (Z.to_nat K) (sort_desc ks))) as Ho.
  { unfold old_backups. fold K old. rewrite Hk. cbv zeta. rewrite Hlen.
    replace (K <=? 0)%Z with false by (symmetry; apply Z.leb_gt; lia).
    replace (K <? Z.of_nat (List.length old))%Z with true
      by (symmetry; apply Z.ltb_lt; lia).
    apply skipn_map. }
  exists ks. split; [exact Hk | split; [exact Ho |]].
  rewrite Ho, <- map_app, firstn_skipn, <- E.
  apply Permutation_map. symmetry. apply sort_desc_perm.
Qed.

Lemma all_unlinked : filter can_unlink (old_backups self s) = old_backups self s.
Proof.
  apply forallb_filter_id. apply forallb_forall. intros d Hd.
  rewrite Forall_forall in unlinkable. unfold can_unlink.
  now rewrite (unlinkable d Hd).
Qed.

(** After pruning, the archives left are those not among the old ones. *)
Lemma remaining_backups :
  glob_backups (st_dir s')
  = filter (fun x => negb (PyStr.str_in (d_name x) (map d_name (old_backups self s)))) old.
Proof.
  unfold s'. rewrite cleanup_dir, all_unlinked. unfold old, glob_backups.
  apply filter_comm.
Qed.

Lemma remaining_iff (x : dirent) :
  In x (glob_backups (st_dir s')) <-> In x old /\ ~ In x (old_backups self s).
Proof.
  rewrite remaining_backups, filter_In. split; intros [Hx H]; split; try assumption.
  - intros Hin. apply (in_map d_name) in Hin. apply str_in_In in Hin.
    rewrite Hin in H. discriminate.
  - destruct (PyStr.str_in _ _) eqn:E; [| reflexivity].
    exfalso. apply H. apply str_in_In, in_map_iff in E. destruct E as [y [E Hy]].
    assert (y = x) as ->; [| assumption].
    apply (NoDup_map_injective d_name old); try assumption.
    + apply old_names_distinct.
    + now apply (old_backups_are_backups self s).
Qed.

Lemma remaining_count : List.length (glob_backups (st_dir s')) = Z.to_nat K.
Proof.
  destruct sorted_keys as [ks [Hk [Ho Hperm]]].
  set (kept := map snd (firstn (Z.to_nat K) (sort_desc ks))) in *.
  assert (NoDup old) as Hnd by (apply (NoDup_map_inv d_name), old_names_distinct).
  assert (NoDup (kept ++ old_backups self s)) as Hnd'
    by (apply (Permutation_NoDup Hperm), Hnd).
  assert (Permutation (glob_backups (st_dir s')) kept) as Hp.
  { apply NoDup_Permutation.
    - rewrite remaining_backups. now apply NoDup_filter.
    - now apply NoDup_app_remove_r in Hnd'.
    - intros x. rewrite remaining_iff. split.
      + intros [Hx Hn]. apply (Permutation_in x Hperm) in Hx.
        apply in_app_or in Hx. tauto.
      + intros Hx. split.
        * apply (Permutation_in x (Permutation_sym Hperm)).
          apply in_or_app. now left.
        * now apply (NoDup_app_disjoint _ _ _ Hnd'). }
  rewrite (Permutation_length Hp). unfold kept.
  rewrite length_map, length_firstn, (Permutation_length (sort_desc_perm ks)).
  destruct (mtime_keys_ok _ _ Hk) as [E _].
  rewrite <- (length_map snd ks), E. lia.
Qed.

Lemma others_untouched (x : dirent) :
  In x (st_dir s) -> glob_match backup_glob (d_name x) = false -> In x (st_dir s').
Proof.
  intros Hx Hg. unfold s'. rewrite cleanup_dir. apply filter_In.
  split; [assumption |].
  destruct (PyStr.str_in _ _) eqn:E; [| reflexivity].
  apply str_in_In in E. destruct (gone_are_backups self s _ E) as [d [Hd Hn]].
  apply filter_In in Hd. destruct Hd as [_ Hd]. congruence.
Qed.

Lemma deleted_count :
  List.length (st_dir s) - List.length (st_dir s') = List.length old - Z.to_nat K.
Proof.
  pose proof (filter_length (fun d => glob_match backup_glob (d_name d)) (st_dir s)) as H1.
  pose proof (filter_length (fun d => glob_match backup_glob (d_name d)) (st_dir s')) as H2.
  fold (glob_backups (st_dir s)) in H1. fold (glob_backups (st_dir s')) in H2.
  fold old in H1. rewrite remaining_count in H2.
  assert (filter (fun x => negb (glob_match backup_glob (d_name x))) (st_dir s')
          = filter (fun x => negb (glob_match backup_glob (d_name x))) (st_dir s)) as E.
  { unfold s'. rewrite cleanup_dir, filter_filter. apply filter_ext_in.
    intros x Hx. destruct (glob_match backup_glob (d_name x)) eqn:Hg;
      [now rewrite andb_false_r |].
    rewrite andb_true_r.
    destruct (PyStr.str_in _ _) eqn:E; [| reflexivity].
    apply str_in_In in E. destruct (gone_are_backups self s _ E) as [d [Hd Hn]].
    apply filter_In in Hd. destruct Hd as [_ Hd]. congruence. }
  rewrite E in H2. lia.
Qed.

Lemma newer_than_deleted (k d : dirent) (tk td : Z) :
  In k (glob_backups (st_dir s')) -> In d old -> ~ In d (glob_backups (st_dir s')) ->
  d_mtime k = Ok tk -> d_mtime d = Ok td -> (td < tk)%Z.
Proof.
  intros Hk Hd Hnd Etk Etd.
  destruct sorted_keys as [ks [Hks [Ho Hperm]]].
  destruct (mtime_keys_ok _ _ Hks) as [_ Hkey].
  assert (forall p, In p (sort_desc ks) -> d_mtime (snd p) = Ok (fst p)) as Hkey'.
  { intros p Hp. rewrite Forall_forall in Hkey. apply Hkey.
    now apply (Permutation_in p (sort_desc_perm ks)). }
  apply remaining_iff in Hk. destruct Hk as [Hk Hkn].
  assert (In d (old_backups self s)) as Hdo.
  { pose proof (Permutation_in d Hperm Hd) as H. apply in_app_or in H.
    destruct H as [H | H]; [| exact H].
    exfalso. apply Hnd. apply remaining_iff. split; [exact Hd |].
    apply (NoDup_app_disjoint _ _ _ (Permutation_NoDup Hperm
             (NoDup_map_inv d_name old old_names_distinct)) H). }
  assert (In k (map snd (firstn (Z.to_nat K) (sort_desc ks)))) as Hkk.
  { apply (Permutation_in k Hperm) in Hk. apply in_app_or in Hk. tauto. }
  rewrite Ho in Hdo.
  apply in_map_iff in Hkk. destruct Hkk as [pk [Epk Hpk]].
  apply in_map_iff in Hdo. destruct Hdo as [pd [Epd Hpd]].
  pose proof (sort_desc_sorted ks) as Hs.
  rewrite <- (firstn_skipn (Z.to_nat K) (sort_desc ks)) in Hs.
  pose proof (sorted_split desc _ _ Hs pk pd Hpk Hpd) as Hle. unfold desc in Hle.
  assert (d_mtime k = Ok (fst pk)) as Ek.
  { rewrite <- Epk. apply Hkey'.
    rewrite <- (firstn_skipn (Z.to_nat K)). apply in_or_app. now left. }
  assert (d_mtime d = Ok (fst pd)) as Ed.
  { rewrite <- Epd. apply Hkey'.
    rewrite <- (firstn_skipn (Z.to_nat K)). apply in_or_app. now right. }
  rewrite Etk in Ek. rewrite Etd in Ed. injection Ek as ->. injection Ed as ->.
  destruct (Z.eq_dec (fst pd) (fst pk)) as [E | E]; [| lia].
  exfalso. apply Hkn.
  assert (k = d) as ->.
  { apply (NoDup_map_injective d_mtime old); try assumption. congruence. }
  rewrite Ho. apply in_map_iff. now exists pd.
Qed.

End KeepsNewest.

(** C3, as the code has it.  With [N] archives in the destination
    directory, each of which can be statted, of distinct modification
    times, and a cap [0 < K < N]: when the [unlink] of every old archive
    (those beyond the first [K] in descending order of modification
    time) succeeds, pruning deletes exactly [N - K] files, leaves [K]
    archives, each newer than every archive it deleted, and leaves all
    other files alone. *)
Theorem C3_prune_keeps_newest (self : plugin) (backup_dir : path) (s : state) :
  NoDup (listing s) ->
  Forall (fun d => d_unlink d = None) (old_backups self s) ->
  Forall (fun d => exists t, d_mtime d = Ok t) (glob_backups (st_dir s)) ->
  NoDup (map d_mtime (glob_backups (st_dir s))) ->
  (0 < get (cfg_max_backups (cfg self)) 5
     < Z.of_nat (List.length (glob_backups (st_dir s))))%Z ->
  List.length (st_dir s)
  - List.length (st_dir (snd (_cleanup_old_backups self backup_dir s)))
  = List.length (glob_backups (st_dir s)) - Z.to_nat (get (cfg_max_backups (cfg self)) 5%Z)
  /\ List.length (glob_backups (st_dir (snd (_cleanup_old_backups self backup_dir s))))
     = Z.to_nat (get (cfg_max_backups (cfg self)) 5%Z)
  /\ (forall x,
        In x (glob_backups (st_dir (snd (_cleanup_old_backups self backup_dir s)))) ->
        In x (glob_backups (st_dir s)))
  /\ (forall k d tk td,
        In k (glob_backups (st_dir (snd (_cleanup_old_backups self backup_dir s)))) ->
        In d (glob_backups (st_dir s)) ->
        ~ In d (glob_backups (st_dir (snd (_cleanup_old_backups self backup_dir s)))) ->
        d_mtime k = Ok tk -> d_mtime d = Ok td -> (td < tk)%Z)
  /\ (forall x,
        In x (st_dir s) -> glob_match backup_glob (d_name x) = false ->
        In x (st_dir (snd (_cleanup_old_backups self backup_dir s)))).
Proof.
  intros Hnames Hunlink Hmtime Hdistinct Hcap.
  split; [now apply deleted_count |].
  split; [now apply remaining_count |].
  split; [| split].
  - intros x Hx.
    apply (remaining_iff self backup_dir s Hnames Hunlink) in Hx. tauto.
  - intros k d tk td. now apply newer_than_deleted.
  - intros x. now apply others_untouched.
Qed.

Lemma C3_witness :
  List.length (st_dir demo_state)
  - List.length (st_dir (snd (_cleanup_old_backups demo_plugin demo_backup_dir demo_state)))
  = 7 - 5
  /\ List.length (glob_backups
                    (st_dir (snd (_cleanup_old_backups demo_plugin demo_backup_dir demo_state))))
     = 5.
Proof.
  assert (NoDup (listing demo_state)) as H1
    by (vm_compute; repeat constructor; simpl; intuition discriminate).
  assert (Forall (fun d => d_unlink d = None) (old_backups demo_plugin demo_state)) as H2
    by (vm_compute; repeat constructor).
  assert (Forall (fun d => exists t, d_mtime d = Ok t) (glob_backups (st_dir demo_state))) as H3
    by (vm_compute; repeat constructor; eexists; reflexivity).
  assert (NoDup (map d_mtime (glob_backups (st_dir demo_state)))) as H4
    by (vm_compute; repeat constructor; simpl; intuition discriminate).
  assert (0 < get (cfg_max_backups (cfg demo_plugin)) 5
            < Z.of_nat (List.length (glob_backups (st_dir demo_state))))%Z as H5
    by (vm_compute; split; reflexivity).
  destruct (C3_prune_keeps_newest demo_plugin demo_backup_dir demo_state H1 H2 H3 H4 H5)
    as [Ha [Hb _]].
  split; [exact Ha | exact Hb].
Defined.

(** C3 as stated fails when an [unlink] raises: of three archives with a
    cap of two, the oldest is to be deleted, cannot be, and stays. *)
Lemma C3_counterexample :
  NoDup (listing locked_state)
  /\ Forall (fun d => exists t, d_mtime d = Ok t) (glob_backups (st_dir locked_state))
  /\ NoDup (map d_mtime (glob_backups (st_dir locked_state)))
  /\ (0 < get (cfg_max_backups (cfg keep_two)) 5
        < Z.of_nat (List.length (glob_backups (st_dir locked_state))))%Z
  /\ List.length (st_dir locked_state)
     - List.length (st_dir (snd (_cleanup_old_backups keep_two demo_backup_dir locked_state)))
     <> 3 - 2
  /\ List.length (glob_backups
                    (st_dir (snd (_cleanup_old_backups keep_two demo_backup_dir locked_state))))
     <> 2.
Proof.
  split; [vm_compute; repeat constructor; simpl; intuition discriminate |].
  split; [vm_compute; repeat constructor; eexists; reflexivity |].
  split; [vm_compute; repeat constructor; simpl; intuition discriminate |].
  split; [vm_compute; split; reflexivity |].
  split; vm_compute; discriminate.
Qed.

(** ** Outcome of a backup attempt *)

Lemma create_entry_name (w : world) (fname : string) (l : list dirent) :
  In fname (map d_name (create_entry w fname l)).
Proof.
  induction l as [| d l IH]; simpl; [now left |].
  destruct (String.eqb (d_name d) fname); simpl; [now left | now right].
Qed.

Lemma create_entry_others (w : world) (fname : string) (l : list dirent) (d : dirent) :
  In d l -> d_name d <> fname -> In d (create_entry w fname l).
Proof.
  induction l as [| x l IH]; simpl; intros Hd Hn; [contradiction |].
  destruct (String.eqb (d_name x) fname) eqn:E.
  - apply String.eqb_eq in E. destruct Hd as [-> | Hd]; [congruence | now right].
  - destruct Hd as [-> | Hd]; [now left | right; now apply IH].
Qed.

Lemma create_entry_names (w : world) (fname : string) (l : list dirent) (n : string) :
  In n (map d_name l) -> In n (map d_name (create_entry w fname l)).
Proof.
  induction l as [| x l IH]; simpl; intros Hn; [contradiction |].
  destruct (String.eqb (d_name x) fname) eqn:E; simpl.
  - apply String.eqb_eq in E. destruct Hn as [<- | Hn]; [now left | now right].
  - destruct Hn as [<- | Hn]; [now left | right; now apply IH].
Qed.

Lemma keeps_dir_write_tree (self : plugin) (w : world) : keeps st_dir (write_tree self w).
Proof.
  unfold write_tree. apply keeps_for_each. intros [[root dirs] files] _.
  apply keeps_for_each. intros file _. unfold add_file.
  destruct (PyStr.str_in _ _); [apply keeps_ret |].
  destruct (is_backup_name _); [apply keeps_ret |].
  destruct (relative_to _ _); [| apply keeps_raise].
  intros s. unfold zip_write. now destruct (w_write w _).
Qed.

Lemma keeps_log_write_tree (self : plugin) (w : world) : keeps st_log (write_tree self w).
Proof.
  unfold write_tree. apply keeps_for_each. intros [[root dirs] files] _.
  apply keeps_for_each. intros file _. unfold add_file.
  destruct (PyStr.str_in _ _); [apply keeps_ret |].
  destruct (is_backup_name _); [apply keeps_ret |].
  destruct (relative_to _ _); [| apply keeps_raise].
  intros s. unfold zip_write. now destruct (w_write w _).
Qed.

Section Attempt.
Variables (self : plugin) (w : world) (s : state).

Let fname : string := _generate_backup_filename (w_now w).
Let backup_file : path := _get_backup_path self ++ [fname].

(** Until the archive is opened the directory is as it was; from then
    on it holds the new archive besides. *)
Lemma build_archive_dir :
  st_dir (snd (build_archive self w s))
  = match w_mkdir w, w_open w with
    | None, None => create_entry w fname (st_dir s)
    | _, _ => st_dir s
    end.
Proof.
  unfold build_archive, with_zipfile, mkdir, stat_size, bind, logger, may_raise, raise, ret.
  destruct (w_mkdir w); [reflexivity |].
  destruct (w_open w); [reflexivity |]. cbn [fst snd st_dir st_zip st_log].
  match goal with |- context [write_tree self w ?s1] =>
    pose proof (keeps_dir_write_tree self w s1) as H;
    destruct (write_tree self w s1) as [[u | e] s2]
  end; cbn [snd st_dir] in H.
  - destruct (w_close w); cbn [fst snd]; [exact H |].
    destruct (w_stat w); exact H.
  - destruct (w_close w); exact H.
Qed.

Lemma build_archive_log :
  exists recs,
    st_log (snd (build_archive self w s)) = st_log s ++ recs
    /\ deleted_paths recs = [].
Proof.
  unfold build_archive, with_zipfile, mkdir, stat_size, bind, logger, may_raise, raise, ret.
  destruct (w_mkdir w); [now eexists |].
  destruct (w_open w); [now eexists |]. cbn [fst snd st_dir st_zip st_log].
  match goal with |- context [write_tree self w ?s1] =>
    pose proof (keeps_log_write_tree self w s1) as H;
    destruct (write_tree self w s1) as [[u | e] s2]
  end; cbn [snd st_log] in H.
  - destruct (w_close w); cbn [fst snd].
    + rewrite H. now eexists.
    + destruct (w_stat w); cbn [fst snd st_log]; rewrite H.
      * rewrite <- app_assoc. now eexists.
      * now eexists.
  - destruct (w_close w); cbn [snd]; rewrite H; now eexists.
Qed.

(** An exception in lines 89-121 goes straight to the handler. *)
Lemma create_backup_failure (e : string) :
  fst (build_archive self w s) = Raise e ->
  _create_backup self w s
  = ([("success", PyBool false); ("error", PyStr e)],
     mkState (st_dir (snd (build_archive self w s)))
             (st_zip (snd (build_archive self w s)))
             (st_log (snd (build_archive self w s)) ++ [LogBackupFailed e])).
Proof.
  unfold _create_backup, bind.
  destruct (build_archive self w s) as [[n | e'] s1]; simpl; intros H;
    [discriminate | now injection H as ->].
Qed.

(** Once the archive is written and statted, nothing raises any more. *)
Lemma create_backup_success (n : N) :
  fst (build_archive self w s) = Ok n ->
  _create_backup self w s
  = ([("success", PyBool true);
      ("path", PyStr (to_str backup_file));
      ("size_mb", PyFloat (size_mb n));
      ("filename", PyStr fname)],
     snd (_cleanup_old_backups self (_get_backup_path self)
                               (snd (build_archive self w s)))).
Proof.
  unfold _create_backup, bind, ret.
  destruct (build_archive self w s) as [[n' | e] s1]; simpl; intros H;
    [injection H as -> | discriminate].
  rewrite cleanup_cases. reflexivity.
Qed.

Lemma failure_means_raise :
  dict_get "success" (fst (_create_backup self w s)) = Some (PyBool false) ->
  exists e, fst (build_archive self w s) = Raise e.
Proof.
  destruct (fst (build_archive self w s)) as [n | e] eqn:E.
  - rewrite (create_backup_success n E). simpl. discriminate.
  - now exists e.
Qed.

End Attempt.

Lemma round_half_even_nonneg (a b : Z) :
  (0 <= a)%Z -> (0 < b)%Z -> (0 <= round_half_even a b)%Z.
Proof.
  intros Ha Hb. unfold round_half_even.
  assert (0 <= a / b)%Z by (apply Z.div_pos; lia).
  destruct (_ <? _)%Z; [assumption |].
  destruct (_ <? _)%Z; [lia |].
  destruct (Z.even _); lia.
Qed.

Lemma size_mb_nonneg (n : N) : (0 <= size_mb n)%Q.
Proof.
  unfold size_mb, Qle. cbn [Qnum Qden].
  rewrite Z.mul_0_l, Z.mul_1_r.
  apply round_half_even_nonneg; [| reflexivity].
  apply Z.mul_nonneg_nonneg; [lia | apply N2Z.is_nonneg].
Qed.

(** Which step decides the outcome of lines 89-121. *)
Lemma build_archive_result (self : plugin) (w : world) (s : state) :
  fst (build_archive self w s)
  = match w_mkdir w with
    | Some e => Raise e
    | None =>
        match w_open w with
        | Some e => Raise e
        | None =>
            let opened :=
              mkState (create_entry w (_generate_backup_filename (w_now w)) (st_dir s))
                      (Some [])
                      (st_log s ++ [LogBackupStart
                                      (_get_backup_path self
                                       ++ [_generate_backup_filename (w_now w)])]) in
            match fst (write_tree self w opened), w_close w with
            | _, Some e => Raise e
            | Raise e, None => Raise e
            | Ok _, None => w_stat w
            end
        end
    end.
Proof.
  unfold build_archive, with_zipfile, mkdir, stat_size, bind, logger, may_raise, raise, ret.
  destruct (w_mkdir w); [reflexivity |].
  destruct (w_open w); [reflexivity |]. cbn [fst snd st_dir st_zip st_log]. cbv zeta.
  destruct (write_tree self w _) as [[u | e] s2]; cbn [fst snd].
  - destruct (w_close w); cbn [fst snd]; [reflexivity |].
    now destruct (w_stat w).
  - now destruct (w_close w).
Qed.

(** C5, as the code has it.  Whatever exception a step of the build
    raises, [_create_backup] returns [success: False] with the text of
    that exception as [error]; it removes nothing, so once the archive
    has been opened the partial archive file stays in the destination
    directory. *)
Theorem C5_failure_is_reported (self : plugin) (w : world) (s : state) (e : string) :
  fst (build_archive self w s) = Raise e ->
  fst (_create_backup self w s) = [("success", PyBool false); ("error", PyStr e)]
  /\ st_dir (snd (_create_backup self w s)) = st_dir (snd (build_archive self w s))
  /\ (w_mkdir w = None -> w_open w = None ->
      In (_generate_backup_filename (w_now w)) (listing (snd (_create_backup self w s)))).
Proof.
  intros H. rewrite (create_backup_failure self w s e H). cbn [fst snd st_dir].
  split; [reflexivity | split; [reflexivity |]].
  intros Hm Ho. unfold listing. cbn [st_dir].
  rewrite build_archive_dir, Hm, Ho. apply create_entry_name.
Qed.

Lemma C5_witness :
  fst (build_archive demo_plugin demo_world_vanished demo_state)
  = Raise "No such file or directory"
  /\ fst (_create_backup demo_plugin demo_world_vanished demo_state)
     = [("success", PyBool false); ("error", PyStr "No such file or directory")].
Proof.
  assert (fst (build_archive demo_plugin demo_world_vanished demo_state)
          = Raise "No such file or directory") as H by (vm_compute; reflexivity).
  split; [exact H |].
  apply (C5_failure_is_reported demo_plugin demo_world_vanished demo_state _ H).
Defined.

(** C5 as stated fails on its last part: when a file has vanished
    before it is written, the attempt fails and the archive it had
    begun, holding the one entry written so far, is still there. *)
Lemma C5_counterexample :
  fst (_create_backup demo_plugin demo_world_vanished demo_state)
  = [("success", PyBool false); ("error", PyStr "No such file or directory")]
  /\ ~ In "astrbot_backup_20250307_090501.zip" (listing demo_state)
  /\ In "astrbot_backup_20250307_090501.zip"
        (listing (snd (_create_backup demo_plugin demo_world_vanished demo_state)))
  /\ entries (snd (_create_backup demo_plugin demo_world_vanished demo_state))
     = [["app"; "main.bin"]].
Proof.
  split; [vm_compute; reflexivity |].
  split; [vm_compute; intuition discriminate |].
  split; [vm_compute; tauto | vm_compute; reflexivity].
Qed.

(** C6, as the code has it.  A backup attempt returns one of two
    dictionaries: on success the archive path, its size in megabytes
    rounded to two decimals (a non-negative float) and the file name,
    and no error; on failure the error message and nothing else. *)
Theorem C6_result_shape (self : plugin) (w : world) (s : state) :
  (exists p q f,
      fst (_create_backup self w s)
      = [("success", PyBool true); ("path", PyStr p);
         ("size_mb", PyFloat q); ("filename", PyStr f)]
      /\ (0 <= q)%Q)
  \/ (exists e,
        fst (_create_backup self w s)
        = [("success", PyBool false); ("error", PyStr e)]).
Proof.
  destruct (fst (build_archive self w s)) as [n | e] eqn:E.
  - left. rewrite (create_backup_success self w s n E). cbn [fst].
    do 3 eexists. split; [reflexivity | apply size_mb_nonneg].
  - right. rewrite (create_backup_failure self w s e E). now exists e.
Qed.

(** C6 as stated fails on the size: a successful attempt reports no
    integer at all, the size of a 131072-byte archive being the float
    0.12 (megabytes). *)
Lemma C6_counterexample :
  fst (_create_backup demo_plugin demo_world demo_state)
  = [("success", PyBool true);
     ("path", PyStr "/srv/astrbot_backup_20250307_090501.zip");
     ("size_mb", PyFloat (Qmake 12 100));
     ("filename", PyStr "astrbot_backup_20250307_090501.zip")]
  /\ forall k z, dict_get k (fst (_create_backup demo_plugin demo_world demo_state))
                 <> Some (PyInt z).
Proof.
  assert (fst (_create_backup demo_plugin demo_world demo_state)
          = [("success", PyBool true);
             ("path", PyStr "/srv/astrbot_backup_20250307_090501.zip");
             ("size_mb", PyFloat (Qmake 12 100));
             ("filename", PyStr "astrbot_backup_20250307_090501.zip")]) as H
    by (vm_compute; reflexivity).
  split; [exact H |]. intros k z. rewrite H. cbn [dict_get].
  repeat (destruct (String.eqb k _); [discriminate |]). discriminate.
Qed.

(** C10.  An attempt that fails has not pruned: every file that was in
    the destination directory is still there (the one bearing the new
    archive's name possibly overwritten), and no deletion is logged. *)
Theorem C10_failed_attempt_deletes_nothing (self : plugin) (w : world) (s : state) :
  dict_get "success" (fst (_create_backup self w s)) = Some (PyBool false) ->
  (forall d, In d (st_dir s) ->
     d_name d <> _generate_backup_filename (w_now w) ->
     In d (st_dir (snd (_create_backup self w s))))
  /\ (forall n, In n (listing s) -> In n (listing (snd (_create_backup self w s))))
  /\ exists recs,
      st_log (snd (_create_backup self w s)) = st_log s ++ recs
      /\ deleted_paths recs = [].
Proof.
  intros Hfail. destruct (failure_means_raise self w s Hfail) as [e He].
  rewrite (create_backup_failure self w s e He). unfold listing. cbn [snd st_dir st_log].
  rewrite build_archive_dir.
  split; [| split].
  - intros d Hd Hn. destruct (w_mkdir w); [assumption |].
    destruct (w_open w); [assumption |]. now apply create_entry_others.
  - intros n Hn. destruct (w_mkdir w); [assumption |].
    destruct (w_open w); [assumption |]. now apply create_entry_names.
  - destruct (build_archive_log self w s) as [recs [-> Hrecs]].
    exists (recs ++ [LogBackupFailed e]). rewrite <- app_assoc.
    split; [reflexivity |].
    unfold deleted_paths in *. now rewrite flat_map_app, Hrecs.
Qed.

Lemma C10_witness :
  dict_get "success" (fst (_create_backup demo_plugin demo_world_vanished demo_state))
  = Some (PyBool false)
  /\ forall n, In n (listing demo_state) ->
               In n (listing (snd (_create_backup demo_plugin demo_world_vanished demo_state))).
Proof.
  assert (dict_get "success" (fst (_create_backup demo_plugin demo_world_vanished demo_state))
          = Some (PyBool false)) as H by (vm_compute; reflexivity).
  split; [exact H |].
  apply (C10_failed_attempt_deletes_nothing demo_plugin demo_world_vanished demo_state H).
Defined.

(** ** The scheduler loop *)

Lemma iteration_cron_raises (self : plugin) (env : sched_env) (cron_expr : string)
                            (st : sched_state) (e : string) :
  cron_next env cron_expr (clock st) = Raise e ->
  iteration self env cron_expr st
  = (sleep cooldown_us (emit (EvLog (SchedError e)) st), Continue).
Proof.
  intros H. unfold iteration, try_block. now rewrite H.
Qed.

(** C8.  When computing the next occurrence raises, the pass logs the
    fault, sleeps the fixed cooldown of 3600 seconds and hands control
    back to the head of the loop; with an expression that always fails
    and no stop request the loop is still running after any number of
    passes, each of which took exactly one cooldown. *)
Theorem C8_cron_failure_cools_down (self : plugin) (env : sched_env) (cron_expr : string) :
  (forall st e,
      cron_next env cron_expr (clock st) = Raise e ->
      iteration self env cron_expr st
      = (mkSched (clock st + 3600 * 1000000) (disk st)
                 (trace st ++ [EvLog (SchedError e); EvSleep (3600 * 1000000)]),
         Continue))
  /\ ((forall t, exists e, cron_next env cron_expr t = Raise e) ->
      (forall t, stop_backup env t = false) ->
      forall passes st,
        snd (while_loop self env cron_expr passes st) = Running
        /\ clock (fst (while_loop self env cron_expr passes st))
           = (clock st + Z.of_nat passes * (3600 * 1000000))%Z).
Proof.
  split.
  - intros st e H. rewrite (iteration_cron_raises self env cron_expr st e H).
    unfold sleep, emit. cbn [clock disk trace]. now rewrite <- app_assoc.
  - intros Hcron Hstop passes.
    induction passes as [| n IH]; intros st.
    + simpl. split; [reflexivity | lia].
    + cbn [while_loop]. rewrite Hstop.
      destruct (Hcron (clock st)) as [e He].
      rewrite (iteration_cron_raises self env cron_expr st e He).
      destruct (IH (sleep cooldown_us (emit (EvLog (SchedError e)) st))) as [H1 H2].
      split; [exact H1 |]. rewrite H2. unfold sleep, emit. cbn [clock].
      unfold cooldown_us, second_us. lia.
Qed.

Lemma C8_witness :
  (forall t, exists e, cron_next malformed_env "61 * * * *" t = Raise e)
  /\ (forall t, stop_backup malformed_env t = false)
  /\ snd (while_loop demo_plugin malformed_env "61 * * * *" 3 sched_start) = Running
  /\ clock (fst (while_loop demo_plugin malformed_env "61 * * * *" 3 sched_start))
     = (3 * (3600 * 1000000))%Z.
Proof.
  assert (forall t, exists e, cron_next malformed_env "61 * * * *" t = Raise e) as H1
    by (intros t; eexists; reflexivity).
  assert (forall t, stop_backup malformed_env t = false) as H2 by reflexivity.
  split; [exact H1 | split; [exact H2 |]].
  apply (proj2 (C8_cron_failure_cools_down demo_plugin malformed_env "61 * * * *")
               H1 H2 3 sched_start).
Defined.

(** ** The loop under [terminate] *)


(** When [terminate] comes at [u], not before the [await] began, the
    [await] is cancelled at [u] if it was to last beyond, and runs to
    its end otherwise. *)
Lemma cancelled_at_coming (u from till : Z) :
  (from <= u)%Z ->
  cancelled_at (Some u) from till
  = if (u <? till)%Z || (u =? from)%Z then Some u else None.
Proof.
  intros H. unfold cancelled_at.
  destruct (u <? till)%Z eqn:E1; cbn [orb].
  - f_equal. lia.
  - destruct (u <=? from)%Z eqn:E2, (u =? from)%Z eqn:E3;
      try reflexivity; f_equal; lia.
Qed.



(** With [terminate] coming at [u], not before the loop is here, the
    polling ends at [u] at the latest, cancelled or by the flag, and if
    it ends before [u] it has run all its rounds. *)
Lemma poll_minutes_c_stop (env : sched_env) (u : Z) (n : nat) (st : sched_state) :
  (forall t, stop_backup env t = (u <=? t)%Z) ->
  (clock st <= u)%Z ->
  disk (fst (poll_minutes_c env (Some u) n st)) = disk st
  /\ match snd (poll_minutes_c env (Some u) n st) with
     | Cancelled => clock (fst (poll_minutes_c env (Some u) n st)) = u
     | Resumed _ =>
         (clock (fst (poll_minutes_c env (Some u) n st)) <= u)%Z
         /\ ((clock (fst (poll_minutes_c env (Some u) n st)) < u)%Z ->
             clock (fst (poll_minutes_c env (Some u) n st))
             = (clock st + minute_us * Z.of_nat n)%Z)
     end.
Proof.
  intros Hflag. assert (0 < minute_us)%Z as Hmin by reflexivity.
  revert st. induction n as [| n IH]; intros st Hst.
  - simpl. split; [reflexivity | split; [assumption | lia]].
  - cbn [poll_minutes_c]. rewrite Hflag.
    destruct (u <=? clock st)%Z eqn:E.
    + apply Z.leb_le in E. cbn [fst snd]. split; [reflexivity | split; [assumption | lia]].
    + apply Z.leb_gt in E. unfold sleep_c.
      rewrite cancelled_at_coming by assumption.
      replace (u =? clock st)%Z with false by (symmetry; apply Z.eqb_neq; lia).
      rewrite orb_false_r.
      destruct (u <? clock st + minute_us)%Z eqn:E1.
      * cbn [fst snd clock disk]. tauto.
      * apply Z.ltb_ge in E1.
        destruct (IH (sleep minute_us st)) as [Hd Hr];
          [unfold sleep; cbn [clock]; lia |].
        split; [exact Hd |].
        destruct (snd (poll_minutes_c env (Some u) n (sleep minute_us st)));
          [| exact Hr].
        destruct Hr as [H1 H2]. split; [exact H1 |].
        intros H. rewrite (H2 H). unfold sleep. cbn [clock]. lia.
Qed.




(** As long as [terminate] is not called, the task under [terminate] is
    the task left alone. *)
Lemma sleep_c_alone (us : Z) (st : sched_state) :
  sleep_c None us st = (sleep us st, Resumed tt).
Proof. reflexivity. Qed.

Lemma poll_minutes_c_alone (env : sched_env) (n : nat) (st : sched_state) :
  poll_minutes_c env None n st = (poll_minutes env n st, Resumed tt).
Proof.
  revert st. induction n as [| n IH]; intros st; [reflexivity |].
  cbn [poll_minutes_c poll_minutes].
  destruct (stop_backup env (clock st)); [reflexivity |].
  rewrite sleep_c_alone. apply IH.
Qed.

Lemma wait_until_c_alone (env : sched_env) (next_run wait : Z) (st : sched_state) :
  wait_until_c env None next_run wait st
  = (fst (wait_until env next_run wait st), Resumed (snd (wait_until env next_run wait st))).
Proof.
  unfold wait_until_c, wait_until. rewrite poll_minutes_c_alone.
  destruct (stop_backup env _); reflexivity.
Qed.

Lemma iteration_c_alone (self : plugin) (env : sched_env) (cron_expr : string)
                        (st : sched_state) :
  iteration_c self env None cron_expr st
  = (fst (iteration self env cron_expr st), Resumed (snd (iteration self env cron_expr st))).
Proof.
  unfold iteration_c, iteration, try_block_c, try_block.
  destruct (cron_next env cron_expr (clock st)) as [next_run | e]; [| reflexivity].
  assert ((if (0 <? next_run - clock st)%Z
           then wait_until_c env None next_run (next_run - clock st) st
           else (st, Resumed Continue))
          = (fst (if (0 <? next_run - clock st)%Z
                  then wait_until env next_run (next_run - clock st) st
                  else (st, Continue)),
             Resumed (snd (if (0 <? next_run - clock st)%Z
                           then wait_until env next_run (next_run - clock st) st
                           else (st, Continue))))) as ->.
  { destruct (0 <? next_run - clock st)%Z; [apply wait_until_c_alone | reflexivity]. }
  destruct (if (0 <? next_run - clock st)%Z
            then wait_until env next_run (next_run - clock st) st
            else (st, Continue)) as [st1 [|]]; cbn [fst snd]; [| reflexivity].
  unfold run_backup_c, run_backup. cbn [cancelled_at].
  destruct (_create_backup self _ _) as [result disk'].
  destruct (report result); reflexivity.
Qed.

(** The loop never cancelled is the loop of the preceding section. *)
Lemma while_loop_c_alone (self : plugin) (env : sched_env) (cron_expr : string)
                         (passes : nat) (st : sched_state) :
  while_loop_c self env None cron_expr passes st = while_loop self env cron_expr passes st.
Proof.
  revert st. induction passes as [| n IH]; intros st; [reflexivity |].
  cbn [while_loop_c while_loop].
  destruct (stop_backup env (clock st)); [reflexivity |].
  rewrite iteration_c_alone.
  destruct (iteration self env cron_expr st) as [st1 [|]]; cbn [fst snd];
    [apply IH | reflexivity].
Qed.

(** ** The task never outlives [terminate] *)

Lemma sleep_c_ends (u us : Z) (st : sched_state) :
  (clock st <= u)%Z -> (0 <= us)%Z ->
  match snd (sleep_c (Some u) us st) with
  | Cancelled => clock (fst (sleep_c (Some u) us st)) = u
  | Resumed _ => (clock (fst (sleep_c (Some u) us st)) <= u)%Z
  end.
Proof.
  intros Hst Hus. unfold sleep_c. rewrite cancelled_at_coming by assumption.
  destruct (u <? clock st + us)%Z eqn:E; cbn [orb]; [reflexivity |].
  apply Z.ltb_ge in E.
  destruct (u =? clock st)%Z; cbn [fst snd sleep clock]; [reflexivity | lia].
Qed.

Lemma wait_until_c_ends (env : sched_env) (u next_run wait : Z) (st : sched_state) :
  (forall t, stop_backup env t = (u <=? t)%Z) ->
  (clock st <= u)%Z ->
  match snd (wait_until_c env (Some u) next_run wait st) with
  | Resumed Continue => (clock (fst (wait_until_c env (Some u) next_run wait st)) <= u)%Z
  | _ => clock (fst (wait_until_c env (Some u) next_run wait st)) = u
  end.
Proof.
  intros Hflag Hst.
  assert (0 < minute_us)%Z as Hmin by reflexivity.
  pose proof (Z.mod_pos_bound wait minute_us Hmin) as Hmod.
  unfold wait_until_c.
  set (st0 := emit (EvLog (SchedNextRun next_run)) st).
  destruct (poll_minutes_c_stop env u (Z.to_nat (wait / minute_us)) st0 Hflag)
    as [_ Hr]; [exact Hst |].
  destruct (poll_minutes_c env (Some u) (Z.to_nat (wait / minute_us)) st0)
    as [st1 [[] |]]; cbn [fst snd] in *; [| exact Hr].
  destruct Hr as [H1 _]. rewrite Hflag.
  destruct (u <=? clock st1)%Z eqn:E; cbn [fst snd].
  - apply Z.leb_le in E. lia.
  - pose proof (sleep_c_ends u (wait mod minute_us) st1 H1 ltac:(lia)) as Hs.
    destruct (sleep_c (Some u) (wait mod minute_us) st1) as [st2 [[] |]]; exact Hs.
Qed.

Lemma run_backup_c_ends (self : plugin) (env : sched_env) (u : Z) (st : sched_state) :
  (clock st <= u)%Z ->
  match snd (run_backup_c self env (Some u) st) with
  | Cancelled => clock (fst (run_backup_c self env (Some u) st)) = u
  | Resumed _ => (clock (fst (run_backup_c self env (Some u) st)) <= u)%Z
  end.
Proof.
  intros Hst. unfold run_backup_c. cbn [emit clock disk trace].
  destruct (_create_backup self (backup_world env (clock st)) (disk st)) as [result disk'].
  rewrite cancelled_at_coming by assumption.
  destruct (u <? clock st + backup_time env (clock st))%Z eqn:E; cbn [orb];
    [reflexivity |].
  apply Z.ltb_ge in E.
  destruct (u =? clock st)%Z; [reflexivity |].
  destruct (report result); cbn [fst snd emit clock]; exact E.
Qed.

Lemma iteration_c_ends (self : plugin) (env : sched_env) (u : Z) (cron_expr : string)
                       (st : sched_state) :
  (forall t, stop_backup env t = (u <=? t)%Z) ->
  (clock st <= u)%Z ->
  match snd (iteration_c self env (Some u) cron_expr st) with
  | Resumed Continue => (clock (fst (iteration_c self env (Some u) cron_expr st)) <= u)%Z
  | _ => clock (fst (iteration_c self env (Some u) cron_expr st)) = u
  end.
Proof.
  intros Hflag Hst.
  assert (forall st', (clock st' <= u)%Z -> forall e,
            match snd (let (st'', a) :=
                         sleep_c (Some u) cooldown_us (emit (EvLog (SchedError e)) st') in
                       match a with
                       | Resumed _ => (st'', Resumed Continue)
                       | Cancelled => (st'', Cancelled)
                       end) with
            | Resumed Continue =>
                (clock (fst (let (st'', a) :=
                               sleep_c (Some u) cooldown_us (emit (EvLog (SchedError e)) st') in
                             match a with
                             | Resumed _ => (st'', Resumed Continue)
                             | Cancelled => (st'', Cancelled)
                             end)) <= u)%Z
            | _ =>
                clock (fst (let (st'', a) :=
                              sleep_c (Some u) cooldown_us (emit (EvLog (SchedError e)) st') in
                            match a with
                            | Resumed _ => (st'', Resumed Continue)
                            | Cancelled => (st'', Cancelled)
                            end)) = u
            end) as Hcool.
  { intros st' Hst' e.
    pose proof (sleep_c_ends u cooldown_us (emit (EvLog (SchedError e)) st') Hst'
                             ltac:(discriminate)) as Hs.
    destruct (sleep_c (Some u) cooldown_us (emit (EvLog (SchedError e)) st'))
      as [st2 [[] |]]; exact Hs. }
  unfold iteration_c, try_block_c.
  destruct (cron_next env cron_expr (clock st)) as [next_run | e];
    [| now apply Hcool].
  assert (match snd (if (0 <? next_run - clock st)%Z
                     then wait_until_c env (Some u) next_run (next_run - clock st) st
                     else (st, Resumed Continue)) with
          | Resumed Continue =>
              (clock (fst (if (0 <? next_run - clock st)%Z
                           then wait_until_c env (Some u) next_run (next_run - clock st) st
                           else (st, Resumed Continue))) <= u)%Z
          | _ =>
              clock (fst (if (0 <? next_run - clock st)%Z
                          then wait_until_c env (Some u) next_run (next_run - clock st) st
                          else (st, Resumed Continue))) = u
          end) as Hw.
  { destruct (0 <? next_run - clock st)%Z; [now apply wait_until_c_ends | exact Hst]. }
  destruct (if (0 <? next_run - clock st)%Z
            then wait_until_c env (Some u) next_run (next_run - clock st) st
            else (st, Resumed Continue)) as [st1 [[|] |]]; cbn [fst snd] in *;
    [| exact Hw | exact Hw].
  pose proof (run_backup_c_ends self env u st1 Hw) as Hb.
  destruct (run_backup_c self env (Some u) st1) as [st2 [[[] | e] |]];
    cbn [fst snd] in *; [exact Hb | | exact Hb].
  now apply Hcool.
Qed.

(** Whatever the loop is doing when [terminate] is called at [u], be it
    waiting, in the cooldown after a fault, or awaiting a backup, it does
    not go on beyond [u]: the task, when it has ended, ended at [u]. *)
Lemma while_loop_c_ends (self : plugin) (env : sched_env) (u : Z) (cron_expr : string)
                        (passes : nat) (st : sched_state) :
  (forall t, stop_backup env t = (u <=? t)%Z) ->
  (clock st <= u)%Z ->
  (clock (fst (while_loop_c self env (Some u) cron_expr passes st)) <= u)%Z
  /\ (snd (while_loop_c self env (Some u) cron_expr passes st) = Exited ->
      clock (fst (while_loop_c self env (Some u) cron_expr passes st)) = u).
Proof.
  intros Hflag. revert st. induction passes as [| n IH]; intros st Hst.
  - cbn [while_loop_c fst snd]. split; [assumption | discriminate].
  - cbn [while_loop_c]. rewrite Hflag.
    destruct (u <=? clock st)%Z eqn:E.
    + apply Z.leb_le in E. cbn [fst snd]. split; [assumption | lia].
    + pose proof (iteration_c_ends self env u cron_expr st Hflag Hst) as Hi.
      destruct (iteration_c self env (Some u) cron_expr st) as [st1 [[|] |]];
        cbn [fst snd] in *; [now apply IH | split; [lia | now intros _] ..].
Qed.

(* ================================================================== *)
(** * Part III.  Further properties of the code                        *)
(* ================================================================== *)

(** ** Paths and their text *)

Lemma rfind_none_cons (c a : ascii) (s : string) :
  PyStr.rfind c (String a s) = None ->
  Ascii.eqb a c = false /\ PyStr.rfind c s = None.
Proof.
  simpl. destruct (PyStr.rfind c s); [discriminate |].
  destruct (Ascii.eqb a c); [discriminate | tauto].
Qed.

Lemma split_whole (c : ascii) (x : string) :
  PyStr.rfind c x = None -> PyStr.split c x = [x].
Proof.
  induction x as [| a x IH]; intros H; [reflexivity |].
  apply rfind_none_cons in H. destruct H as [Ha Hx].
  simpl. now rewrite Ha, (IH Hx).
Qed.

Lemma split_first (c : ascii) (x rest : string) :
  PyStr.rfind c x = None ->
  PyStr.split c (x ++ String c rest) = x :: PyStr.split c rest.
Proof.
  induction x as [| a x IH]; intros H.
  - simpl. now rewrite Ascii.eqb_refl.
  - apply rfind_none_cons in H. destruct H as [Ha Hx].
    simpl. now rewrite Ha, (IH Hx).
Qed.

Lemma split_join (l : list string) :
  l <> [] -> Forall component l -> PyStr.split "/" (PyStr.join "/" l) = l.
Proof.
  intros Hne H. induction H as [| x l [_ [_ Hx]] Hl IH]; [congruence |].
  destruct l as [| y l].
  - simpl. now apply split_whole.
  - change (PyStr.join "/" (x :: y :: l))
      with (x ++ String "/" (PyStr.join "/" (y :: l)))%string.
    rewrite (split_first _ _ _ Hx), IH; [reflexivity | discriminate].
Qed.

Lemma splitroot_relative (a : ascii) (s : string) :
  Ascii.eqb a "/" = false ->
  splitroot (String a s) = (EmptyString, String a s).
Proof.
  intros H. destruct a as [[] [] [] [] [] [] [] []];
    try reflexivity; discriminate.
Qed.

Lemma join_head (l : list string) :
  l <> [] -> Forall component l ->
  exists a s, PyStr.join "/" l = String a s /\ Ascii.eqb a "/" = false.
Proof.
  intros Hne H. destruct H as [| x l [Hx [_ Hs]] Hl]; [congruence |].
  destruct x as [| a x]; [congruence |].
  apply rfind_none_cons in Hs. destruct Hs as [Ha _].
  destruct l as [| y l]; simpl; eauto.
Qed.

Lemma filter_components (l : list string) :
  Forall component l ->
  filter (fun x => negb (String.eqb x EmptyString) && negb (String.eqb x ".")) l = l.
Proof.
  induction 1 as [| x l [Hx [Hd _]] _ IH]; simpl; [reflexivity |].
  apply String.eqb_neq in Hx, Hd. now rewrite Hx, Hd, IH.
Qed.

Lemma parts_join (l : list string) :
  Forall component l -> parts (PyStr.join "/" l) = l.
Proof.
  intros H. destruct l as [| x l]; [reflexivity |].
  destruct (join_head (x :: l)) as [a [s [E Ha]]]; [discriminate | assumption |].
  unfold parts. rewrite E, (splitroot_relative _ _ Ha), <- E.
  cbn [String.eqb].
  rewrite split_join by (discriminate || assumption).
  now apply filter_components.
Qed.

Lemma component_not_rooted (x : string) :
  component x -> PyStr.startswith x "/" = false.
Proof.
  intros [Hne [_ Hs]]. destruct x as [| a x]; [congruence |].
  apply rfind_none_cons in Hs. destruct Hs as [Ha _].
  unfold PyStr.startswith. cbn [String.prefix].
  destruct (ascii_dec "/" a) as [<- |]; [| reflexivity].
  rewrite Ascii.eqb_refl in Ha. discriminate.
Qed.

Lemma to_str_relative (x : string) (l : list string) :
  PyStr.startswith x "/" = false -> to_str (x :: l) = PyStr.join "/" (x :: l).
Proof. intros H. unfold to_str. now rewrite H. Qed.

Lemma parts_to_str (l : list string) :
  Forall component l -> parts (to_str l) = l.
Proof.
  intros H. destruct l as [| x l]; [reflexivity |].
  rewrite to_str_relative; [now apply parts_join |].
  apply component_not_rooted. now inversion H.
Qed.

Lemma parts_to_str_rooted (l : list string) :
  Forall component l -> parts (to_str ("/" :: l)) = "/" :: l.
Proof.
  intros H. change (to_str ("/" :: l)) with ("/" ++ PyStr.join "/" l)%string.
  destruct l as [| x l]; [reflexivity |].
  destruct (join_head (x :: l)) as [a [s [E Ha]]]; [discriminate | assumption |].
  unfold parts. cbn [append]. rewrite E.
  assert (splitroot (String "/" (String a s)) = ("/", String a s)) as ->.
  { destruct a as [[] [] [] [] [] [] [] []]; try reflexivity; discriminate. }
  cbn [String.eqb Ascii.eqb Bool.eqb]. rewrite <- E.
  rewrite split_join by (discriminate || assumption).
  now rewrite filter_components.
Qed.

Lemma digit_not_slash (n : nat) : Ascii.eqb (digit n) "/" = false.
Proof.
  unfold digit.
  assert (n mod 10 < 10) as H by (apply Nat.mod_upper_bound; lia).
  revert H. generalize (n mod 10). intros m H.
  do 10 (destruct m as [| m]; [reflexivity |]). lia.
Qed.

Lemma slashless_fmt2 (n : nat) : PyStr.rfind "/" (fmt2 n) = None.
Proof. unfold fmt2. cbn [PyStr.rfind]. now rewrite !digit_not_slash. Qed.

Lemma slashless_fmt4 (n : nat) : PyStr.rfind "/" (fmt4 n) = None.
Proof.
  unfold fmt4. cbn [PyStr.rfind]. now rewrite slashless_fmt2, !digit_not_slash.
Qed.

(** The generated file name is a single path component. *)
Lemma generated_name_component (now : datetime) :
  component (_generate_backup_filename now).
Proof.
  unfold component. split; [discriminate | split; [discriminate |]].
  unfold _generate_backup_filename, strftime.
  rewrite !rfind_app, !slashless_fmt2, slashless_fmt4. reflexivity.
Qed.

(** X1.  The path a successful backup reports can be read back: parsed
    as a path again, the text gives the destination directory followed by
    the archive's file name. *)
Theorem X1_reported_path_reads_back (self : plugin) (w : world) (s : state) (l : path) :
  _get_backup_path self = "/" :: l ->
  Forall component l ->
  dict_get "success" (fst (_create_backup self w s)) = Some (PyBool true) ->
  exists p,
    dict_get "path" (fst (_create_backup self w s)) = Some (PyStr p)
    /\ parts p = _get_backup_path self ++ [_generate_backup_filename (w_now w)].
Proof.
  intros Hdir Hl Hok.
  destruct (fst (build_archive self w s)) as [n | e] eqn:E.
  - rewrite (create_backup_success self w s n E). cbn [fst dict_get String.eqb].
    eexists. split; [reflexivity |].
    rewrite Hdir. cbn [app]. apply parts_to_str_rooted.
    apply Forall_app. split; [assumption |].
    constructor; [apply generated_name_component | constructor].
  - rewrite (create_backup_failure self w s e E) in Hok. discriminate.
Qed.

Lemma X1_witness :
  _get_backup_path demo_plugin = "/" :: ["srv"]
  /\ exists p,
      dict_get "path" (fst (_create_backup demo_plugin demo_world demo_state))
      = Some (PyStr p)
      /\ parts p = _get_backup_path demo_plugin
                   ++ [_generate_backup_filename (w_now demo_world)].
Proof.
  split; [reflexivity |].
  apply (X1_reported_path_reads_back demo_plugin demo_world demo_state ["srv"]).
  - reflexivity.
  - repeat constructor; discriminate.
  - vm_compute. reflexivity.
Defined.

(** X2.  [_should_exclude] answers for the whole path: it is true
    exactly when some component of the path is in the exclusion list,
    the default one or the one given. *)
Theorem X2_should_exclude_any_component (l : list string) (exclude_dirs : option (list string)) :
  Forall component l ->
  _should_exclude (to_str l) exclude_dirs = true
  <-> exists part, In part l /\ In part (get exclude_dirs default_exclude_dirs).
Proof.
  intros H. unfold _should_exclude.
  rewrite (parts_to_str l H).
  replace (match exclude_dirs with Some l0 => l0 | None => default_exclude_dirs end)
    with (get exclude_dirs default_exclude_dirs) by now destruct exclude_dirs.
  rewrite existsb_exists. split; intros [part [Hp Hin]]; exists part;
    (split; [assumption | now apply str_in_In]).
Qed.

Lemma X2_witness :
  Forall component ["app"; ".venv"; "lib"]
  /\ _should_exclude (to_str ["app"; ".venv"; "lib"]) None = true.
Proof.
  assert (Forall component ["app"; ".venv"; "lib"]) as H
    by (repeat constructor; discriminate).
  split; [exact H |].
  apply (X2_should_exclude_any_component ["app"; ".venv"; "lib"] None H).
  exists ".venv". split; simpl; auto.
Defined.

(** ** Archive names *)

Lemma substring_all (s : string) : substring 0 (String.length s) s = s.
Proof. induction s as [| a s IH]; simpl; [reflexivity | now rewrite IH]. Qed.

Lemma substring_tail (i : nat) (n : string) :
  i <= String.length n ->
  n = (substring 0 i n ++ substring i (String.length n - i) n)%string.
Proof.
  revert n. induction i as [| i IH]; intros n Hi.
  - rewrite Nat.sub_0_r, substring_all. now destruct n.
  - destruct n as [| a n]; simpl in *; [lia |].
    f_equal. apply IH. lia.
Qed.

Lemma rfind_bound (c : ascii) (s : string) (i : nat) :
  PyStr.rfind c s = Some i -> i < String.length s.
Proof.
  revert i. induction s as [| a s IH]; simpl; intros i H; [discriminate |].
  destruct (PyStr.rfind c s) as [j |].
  - injection H as <-. specialize (IH j eq_refl). lia.
  - destruct (Ascii.eqb a c); [injection H as <-; lia | discriminate].
Qed.

(** A name with the suffix [.zip] ends in [.zip]. *)
Lemma suffix_zip_inv (n : string) :
  suffix_of_name n = ".zip" -> exists m, n = (m ++ ".zip")%string.
Proof.
  unfold suffix_of_name. destruct (PyStr.rfind "." n) as [i |] eqn:E; [| discriminate].
  destruct (_ && _); [| discriminate]. intros H.
  exists (substring 0 i n). rewrite <- H. apply substring_tail.
  apply rfind_bound in E. lia.
Qed.

(** Any name ending in [.zip] behind something has the suffix [.zip]. *)
Lemma suffix_zip_any (m : string) :
  m <> EmptyString -> suffix_of_name (m ++ ".zip") = ".zip".
Proof.
  intros Hne. unfold suffix_of_name.
  rewrite rfind_app. cbn [PyStr.rfind Ascii.eqb Bool.eqb].
  rewrite Nat.add_0_r, length_append. cbn [String.length].
  assert (0 < String.length m) as Hlen by (destruct m; [congruence | simpl; lia]).
  replace (0 <? String.length m)%nat with true by (symmetry; apply Nat.ltb_lt; lia).
  replace (String.length m <? String.length m + 4 - 1)%nat with true
    by (symmetry; apply Nat.ltb_lt; lia).
  cbn [andb].
  replace (String.length m + 4 - String.length m) with 4 by lia.
  now rewrite substring_past.
Qed.

Lemma prefix_split (p s : string) :
  String.prefix p s = true -> exists rest, s = (p ++ rest)%string.
Proof.
  revert s. induction p as [| a p IH]; intros s H.
  - now exists s.
  - destruct s as [| b s]; [discriminate |]. simpl in H.
    destruct (ascii_dec a b) as [-> |]; [| discriminate].
    destruct (IH s H) as [rest ->]. now exists rest.
Qed.

Lemma prefix_append (p rest : string) : String.prefix p (p ++ rest) = true.
Proof.
  induction p as [| a p IH]; simpl; [now destruct rest |].
  destruct (ascii_dec a a); [exact IH | congruence].
Qed.

Lemma append_inj_r (a b c : string) : (a ++ b = a ++ c)%string -> b = c.
Proof.
  induction a as [| x a IH]; simpl; intros H; [assumption |].
  injection H as H. now apply IH.
Qed.

(** A dotless prefix and the suffix [.zip] cannot overlap. *)
Lemma between_prefix_and_zip (p rest m : string) :
  PyStr.rfind "." p = None ->
  (p ++ rest = m ++ ".zip")%string ->
  exists stamp, rest = (stamp ++ ".zip")%string.
Proof.
  revert m. induction p as [| a p IH]; intros m Hp E.
  - now exists m.
  - apply rfind_none_cons in Hp. destruct Hp as [Ha Hp].
    destruct m as [| b m].
    + simpl in E. injection E as -> E. discriminate.
    + simpl in E. injection E as -> E. now apply (IH m).
Qed.

Lemma skip_test_glob (dir : path) (n : string) :
  is_backup_name (dir ++ [n]) = true <-> glob_match backup_glob n = true.
Proof.
  rewrite glob_match_convention.
  unfold is_backup_name, suffix, PyStr.startswith, backup_prefix.
  rewrite name_snoc, andb_true_iff, String.eqb_eq. split.
  - intros [Hp Hs]. apply prefix_split in Hp. destruct Hp as [rest ->].
    apply suffix_zip_inv in Hs. destruct Hs as [m Hm].
    apply between_prefix_and_zip in Hm; [| reflexivity].
    destruct Hm as [stamp ->]. now exists stamp.
  - intros [stamp ->]. split; [apply prefix_append |].
    rewrite <- append_assoc. apply suffix_zip_any. discriminate.
Qed.

(** X3.  The builder and the retention manager agree on what an archive
    is: the skip test of lines 112-113 accepts a file name exactly when
    the glob [astrbot_backup_*.zip] matches it; and the name the builder
    gives its own archive is one of them, whatever the time. *)
Theorem X3_skip_test_is_the_glob (dir : path) (n : string) (now : datetime) :
  (is_backup_name (dir ++ [n]) = true <-> glob_match backup_glob n = true)
  /\ glob_match backup_glob (_generate_backup_filename now) = true.
Proof.
  split; [apply skip_test_glob |].
  apply (skip_test_glob []). apply (generated_name_is_backup now []).
Qed.

(** ** Time stamps *)

Lemma digit_inj (a b : nat) : digit a = digit b -> a mod 10 = b mod 10.
Proof.
  unfold digit. intros H. apply (f_equal nat_of_ascii) in H.
  assert (a mod 10 < 10) by (apply Nat.mod_upper_bound; lia).
  assert (b mod 10 < 10) by (apply Nat.mod_upper_bound; lia).
  rewrite !nat_ascii_embedding in H by lia. lia.
Qed.

Lemma string_cons_inj (a b : ascii) (s t : string) :
  String a s = String b t -> a = b /\ s = t.
Proof. intros H. injection H as -> ->. tauto. Qed.

(** A number below 10000 from its four decimal digits. *)
Lemma four_digits (a : nat) :
  a < 100 * 100 ->
  a = 1000 * ((a / 1000) mod 10) + 100 * ((a / 100) mod 10)
      + 10 * ((a / 10) mod 10) + a mod 10.
Proof.
  intros Ha.
  pose proof (Nat.div_mod_eq a 10) as E1.
  pose proof (Nat.div_mod_eq (a / 10) 10) as E2.
  pose proof (Nat.div_mod_eq (a / 100) 10) as E3.
  rewrite (Nat.Div0.div_div a 10 10) in E2.
  rewrite (Nat.Div0.div_div a 100 10) in E3.
  change (10 * 10) with 100 in E2. change (100 * 10) with 1000 in E3.
  assert (a / 1000 < 10) as Hk by (apply Nat.Div0.div_lt_upper_bound; lia).
  rewrite (Nat.mod_small _ _ Hk). lia.
Qed.

Lemma two_digits (a : nat) :
  a < 100 -> a = 10 * ((a / 10) mod 10) + a mod 10.
Proof.
  intros Ha. pose proof (Nat.div_mod_eq a 10) as E1.
  assert (a / 10 < 10) as Hk by (apply Nat.Div0.div_lt_upper_bound; lia).
  rewrite (Nat.mod_small _ _ Hk). lia.
Qed.

Lemma fmt2_inj (a b : nat) : a < 100 -> b < 100 -> fmt2 a = fmt2 b -> a = b.
Proof.
  intros Ha Hb H. unfold fmt2 in H.
  apply string_cons_inj in H. destruct H as [H1 H].
  apply string_cons_inj in H. destruct H as [H2 _].
  apply digit_inj in H1, H2.
  rewrite (two_digits a Ha), (two_digits b Hb). now rewrite H1, H2.
Qed.

Lemma fmt4_inj (a b : nat) : a < 100 * 100 -> b < 100 * 100 -> fmt4 a = fmt4 b -> a = b.
Proof.
  intros Ha Hb H. unfold fmt4, fmt2 in H.
  apply string_cons_inj in H. destruct H as [H1 H].
  apply string_cons_inj in H. destruct H as [H2 H].
  apply string_cons_inj in H. destruct H as [H3 H].
  apply string_cons_inj in H. destruct H as [H4 _].
  apply digit_inj in H1, H2, H3, H4.
  rewrite (four_digits a Ha), (four_digits b Hb). now rewrite H1, H2, H3, H4.
Qed.

Lemma fmt2_cut (a b : nat) (x y : string) :
  (fmt2 a ++ x = fmt2 b ++ y)%string -> fmt2 a = fmt2 b /\ x = y.
Proof.
  unfold fmt2. cbn [append]. intros H.
  apply string_cons_inj in H. destruct H as [H1 H].
  apply string_cons_inj in H. destruct H as [H2 H].
  now rewrite H1, H2, H.
Qed.

Lemma fmt4_cut (a b : nat) (x y : string) :
  (fmt4 a ++ x = fmt4 b ++ y)%string -> fmt4 a = fmt4 b /\ x = y.
Proof.
  unfold fmt4. cbn [append]. intros H.
  apply string_cons_inj in H. destruct H as [H1 H].
  apply string_cons_inj in H. destruct H as [H2 H].
  apply fmt2_cut in H. destruct H as [H3 H].
  now rewrite H1, H2, H3, H.
Qed.

(** X4.  Backups started in different seconds get different file
    names: the name determines the time stamp it was made from. *)
Theorem X4_file_name_determines_time (t1 t2 : datetime) :
  printable t1 -> printable t2 ->
  _generate_backup_filename t1 = _generate_backup_filename t2 -> t1 = t2.
Proof.
  intros [Hy1 [Hm1 [Hd1 [Hh1 [Hn1 Hs1]]]]] [Hy2 [Hm2 [Hd2 [Hh2 [Hn2 Hs2]]]]] H.
  unfold _generate_backup_filename in H. apply append_inj_r in H.
  unfold strftime in H. rewrite !append_assoc in H.
  apply fmt4_cut in H. destruct H as [Ey H].
  apply fmt2_cut in H. destruct H as [Em H].
  apply fmt2_cut in H. destruct H as [Ed H].
  cbn [append] in H. apply string_cons_inj in H. destruct H as [_ H].
  apply fmt2_cut in H. destruct H as [Eh H].
  apply fmt2_cut in H. destruct H as [En H].
  apply fmt2_cut in H. destruct H as [Es _].
  apply fmt4_inj in Ey; [| assumption ..].
  apply fmt2_inj in Em, Ed, Eh, En, Es; try assumption.
  destruct t1, t2. simpl in *. congruence.
Qed.

Lemma X4_witness :
  printable demo_now
  /\ (_generate_backup_filename demo_now
      = _generate_backup_filename (mkDatetime 2025 3 7 9 5 1) ->
      demo_now = mkDatetime 2025 3 7 9 5 1).
Proof.
  assert (printable demo_now) as H by (unfold printable; simpl; lia).
  split; [exact H |].
  apply (X4_file_name_determines_time demo_now (mkDatetime 2025 3 7 9 5 1) H H).
Defined.

(** ** What the archive holds *)

Lemma writes_ret : writes (ret tt) [].
Proof. intros s. simpl. now rewrite app_nil_r. Qed.

Lemma writes_bind (m k : M unit) (o1 o2 : list path) :
  writes m o1 -> writes k o2 -> writes (bind m (fun _ => k)) (o1 ++ o2).
Proof.
  intros Hm Hk s. unfold bind. specialize (Hm s).
  destruct (m s) as [[u | e] s1]; cbn [fst snd] in *.
  - specialize (Hk s1). destruct (k s1) as [[u' | e] s2]; cbn [fst snd] in *.
    + now rewrite Hk, Hm, app_assoc.
    + destruct Hk as [pre [rest [-> Hk]]]. exists (o1 ++ pre), rest.
      now rewrite Hk, Hm, !app_assoc.
  - destruct Hm as [pre [rest [-> Hm]]]. exists pre, (rest ++ o2).
    now rewrite Hm, app_assoc.
Qed.

Lemma writes_for_each {A : Type} (l : list A) (body : A -> M unit) (out : A -> list path) :
  (forall x, In x l -> writes (body x) (out x)) ->
  writes (for_each l body) (flat_map out l).
Proof.
  induction l as [| x l IH]; intros H; cbn [for_each flat_map].
  - apply writes_ret.
  - apply writes_bind; [apply H; now left |].
    apply IH. intros y Hy. apply H. now right.
Qed.

Lemma writes_add_file (self : plugin) (w : world) (root : path) (file : string) :
  (exists rel, root = astrbot_path self ++ rel) ->
  writes (add_file self w root file) (plan_file self root file).
Proof.
  intros [rel ->]. unfold add_file, plan_file.
  destruct (PyStr.str_in _ _); [apply writes_ret |].
  destruct (is_backup_name _); [apply writes_ret |].
  rewrite <- app_assoc, relative_to_app.
  intros s. unfold zip_write. destruct (w_write w _); cbn [fst snd].
  - exists [], [rel ++ [file]]. now rewrite app_nil_r.
  - reflexivity.
Qed.

Lemma writes_write_tree (self : plugin) (w : world) :
  writes (write_tree self w) (archive_plan self (w_tree w)).
Proof.
  unfold write_tree, archive_plan. apply writes_for_each.
  intros [[root dirs] files] Hin. apply writes_for_each. intros file _.
  apply writes_add_file. apply os_walk_sound in Hin.
  destruct Hin as [rel [-> _]]. now exists rel.
Qed.

(** With every write succeeding the walk is written out in full. *)
Lemma write_tree_faultless (self : plugin) (w : world) (s : state) :
  (forall p, w_write w p = None) -> fst (write_tree self w s) = Ok tt.
Proof.
  intros Hw. unfold write_tree.
  assert (forall (A : Type) (l : list A) (body : A -> M unit),
             (forall x s0, In x l -> fst (body x s0) = Ok tt) ->
             forall s0, fst (for_each l body s0) = Ok tt) as Hloop.
  { intros A l body. induction l as [| x l IH]; intros Hb s0; [reflexivity |].
    cbn [for_each]. unfold bind.
    pose proof (Hb x s0 (or_introl eq_refl)) as Hx.
    destruct (body x s0) as [[[] | e] s1]; cbn [fst] in Hx; [| discriminate].
    apply IH. intros y s2 Hy. apply Hb. now right. }
  apply Hloop. intros [[root dirs] files] s0 Hin.
  apply os_walk_sound in Hin. destruct Hin as [rel [-> _]].
  apply Hloop. intros file s1 _. unfold add_file.
  destruct (PyStr.str_in _ _); [reflexivity |].
  destruct (is_backup_name _); [reflexivity |].
  rewrite <- app_assoc, relative_to_app. unfold zip_write. now rewrite Hw.
Qed.

(** The archive after lines 89-121: a front part of the plan, all of it
    when the archive was written through. *)
Lemma build_archive_entries (self : plugin) (w : world) (s : state) :
  st_zip s = None ->
  exists pre rest,
    archive_plan self (w_tree w) = pre ++ rest
    /\ entries (snd (build_archive self w s)) = pre
    /\ (forall n, fst (build_archive self w s) = Ok n -> rest = []).
Proof.
  intros Hs.
  unfold build_archive, with_zipfile, mkdir, stat_size, bind, logger, may_raise, raise, ret.
  destruct (w_mkdir w); cbn [fst snd].
  { exists [], (archive_plan self (w_tree w)). unfold entries. cbn [st_zip].
    rewrite Hs. repeat split. discriminate. }
  destruct (w_open w); cbn [fst snd].
  { exists [], (archive_plan self (w_tree w)). unfold entries. cbn [st_zip].
    rewrite Hs. repeat split. discriminate. }
  cbn [st_dir st_zip st_log].
  match goal with |- context [write_tree self w ?s1] =>
    pose proof (writes_write_tree self w s1) as H;
    destruct (write_tree self w s1) as [[u | e] s2]
  end; cbn [fst snd] in H; unfold entries in H; cbn [st_zip get] in H;
    rewrite ?app_nil_l in H.
  - exists (archive_plan self (w_tree w)), []. rewrite app_nil_r.
    destruct (w_close w); cbn [fst snd]; [now repeat split |].
    destruct (w_stat w); cbn [fst snd]; unfold entries; cbn [st_zip]; now repeat split.
  - destruct H as [pre [rest [E H]]]. exists pre, rest.
    destruct (w_close w); cbn [fst snd]; repeat split; try assumption; discriminate.
Qed.

Lemma files_under_nonempty (n : node) : ~ In [] (files_under n).
Proof.
  destruct n as [f | d cs]; simpl; [tauto |].
  intros H. apply in_flat_map in H. destruct H as [c [_ H]].
  destruct c as [f | d' cs'].
  - destruct H as [H | []]. discriminate.
  - apply in_map_iff in H. destruct H as [p [H _]]. discriminate.
Qed.

(** Every file of the tree behind kept directories is listed by the
    walk, at its directory. *)
Lemma os_walk_complete (keep : string -> bool) (n : node) :
  forall base rel file,
    In (rel ++ [file]) (files_under n) ->
    Forall (fun d => keep d = true) rel ->
    exists dirs files,
      In (base ++ rel, dirs, files) (os_walk keep base n) /\ In file files.
Proof.
  induction n as [f | d cs IH] using node_induction; intros base rel file Hin Hrel.
  - contradiction.
  - simpl in Hin. apply in_flat_map in Hin. destruct Hin as [c [Hc Hin]].
    rewrite Forall_forall in IH. specialize (IH c Hc).
    destruct c as [f | g gs].
    + destruct Hin as [Hin | []].
      destruct rel as [| r rel]; [| destruct rel; discriminate].
      injection Hin as ->. exists (dirnames cs), (filenames cs).
      rewrite app_nil_r. split; [now left |].
      apply in_flat_map. exists (File file). split; [assumption | now left].
    + apply in_map_iff in Hin. destruct Hin as [p [E Hp]].
      destruct rel as [| r rel].
      * simpl in E. injection E as _ E. subst p.
        now apply files_under_nonempty in Hp.
      * simpl in E. injection E as -> ->.
        inversion Hrel as [| ? ? Hr Hrel']; subst.
        destruct (IH (base ++ [r]) rel file Hp Hrel') as [dirs [files [Hw Hf]]].
        exists dirs, files. split; [| assumption].
        simpl. right. apply in_flat_map. exists (Dir r gs).
        split; [assumption |]. rewrite Hr. now rewrite <- app_assoc in Hw.
Qed.

Lemma keep_component (d : string) :
  component d -> ~ In d default_exclude_dirs -> keep_dir d = true.
Proof.
  intros Hc Hn. unfold keep_dir, _should_exclude.
  assert (parts d = [d]) as -> by (apply (parts_join [d]); now constructor).
  cbn [existsb]. rewrite orb_false_r.
  destruct (PyStr.str_in d default_exclude_dirs) eqn:E; [| reflexivity].
  apply str_in_In in E. contradiction.
Qed.

Lemma plan_complete (self : plugin) (tree : node) (dirs : path) (file : string) :
  In (dirs ++ [file]) (files_under tree) ->
  Forall component dirs ->
  (forall d, In d dirs -> ~ In d default_exclude_dirs) ->
  ~ In (suffix_of_name file) excluded_suffixes ->
  glob_match backup_glob file = false ->
  In (dirs ++ [file]) (archive_plan self tree).
Proof.
  intros Hin Hc Hx Hs Hg.
  assert (Forall (fun d => keep_dir d = true) dirs) as Hk.
  { rewrite Forall_forall in *. intros d Hd. apply keep_component; auto. }
  destruct (os_walk_complete keep_dir tree (astrbot_path self) dirs file Hin Hk)
    as [ds [fs [Hw Hf]]].
  unfold archive_plan. apply in_flat_map. eexists. split; [exact Hw |].
  apply in_flat_map. exists file. split; [assumption |].
  unfold plan_file. unfold suffix. rewrite name_snoc.
  destruct (PyStr.str_in _ _) eqn:E; [apply str_in_In in E; contradiction |].
  destruct (is_backup_name _) eqn:Eb.
  - apply skip_test_glob in Eb. congruence.
  - rewrite <- app_assoc, relative_to_app. now left.
Qed.

Lemma faultless_entries (self : plugin) (w : world) (s : state) :
  entries (snd (build_archive self (faultless w) s)) = archive_plan self (w_tree w).
Proof.
  unfold build_archive, with_zipfile, mkdir, stat_size, bind, logger, may_raise, raise, ret.
  cbn [faultless w_mkdir w_open w_close w_stat w_now fst snd st_dir st_zip st_log].
  match goal with |- context [write_tree self ?w' ?s1] =>
    pose proof (writes_write_tree self w' s1) as H;
    pose proof (write_tree_faultless self w' s1 (fun _ => eq_refl)) as Hok;
    destruct (write_tree self w' s1) as [[u | e] s2]
  end; cbn [fst snd] in *; [| discriminate].
  unfold entries in H. cbn [st_zip get w_tree] in H. rewrite app_nil_l in H.
  destruct (w_stat w); exact H.
Qed.

(** X5.  A successful backup leaves nothing out: every file of the tree
    whose directories are not in the exclusion list, whose suffix is not
    excluded and whose name is not that of an archive, is an entry. *)
Theorem X5_success_archives_everything
        (self : plugin) (w : world) (s : state) (dirs : path) (file : string) :
  st_zip s = None ->
  dict_get "success" (fst (_create_backup self w s)) = Some (PyBool true) ->
  In (dirs ++ [file]) (files_under (w_tree w)) ->
  Forall component dirs ->
  (forall d, In d dirs -> ~ In d default_exclude_dirs) ->
  ~ In (suffix_of_name file) excluded_suffixes ->
  glob_match backup_glob file = false ->
  In (dirs ++ [file]) (entries (snd (_create_backup self w s))).
Proof.
  intros Hs Hok Hin Hc Hx Hsuf Hg.
  unfold entries. rewrite create_backup_zip. fold (entries (snd (build_archive self w s))).
  destruct (build_archive_entries self w s Hs) as [pre [rest [Hplan [-> Hfull]]]].
  destruct (fst (build_archive self w s)) as [n | e] eqn:E.
  - rewrite (Hfull n eq_refl), app_nil_r in Hplan. rewrite <- Hplan.
    now apply plan_complete.
  - rewrite (create_backup_failure self w s e E) in Hok. discriminate.
Qed.

Lemma X5_witness :
  In (["data"] ++ ["config.json"])
     (entries (snd (_create_backup demo_plugin demo_world demo_state))).
Proof.
  apply X5_success_archives_everything.
  - reflexivity.
  - vm_compute. reflexivity.
  - vm_compute. tauto.
  - repeat constructor; discriminate.
  - intros d [<- | []]. vm_compute. intuition discriminate.
  - vm_compute. intuition discriminate.
  - vm_compute. reflexivity.
Defined.

(** X6.  What a failed attempt leaves in its archive is an initial
    segment of what the same attempt writes when nothing fails: entries
    are written in the order of the walk and none is skipped before the
    failure. *)
Theorem X6_partial_archive_is_a_prefix (self : plugin) (w : world) (s : state) :
  st_zip s = None ->
  exists rest,
    entries (snd (_create_backup self (faultless w) s))
    = entries (snd (_create_backup self w s)) ++ rest.
Proof.
  intros Hs. unfold entries at 1 2. rewrite !create_backup_zip.
  fold (entries (snd (build_archive self (faultless w) s))).
  fold (entries (snd (build_archive self w s))).
  rewrite faultless_entries.
  destruct (build_archive_entries self w s Hs) as [pre [rest [Hplan [-> _]]]].
  now exists rest.
Qed.

Lemma X6_witness :
  st_zip demo_state = None
  /\ exists rest,
      entries (snd (_create_backup demo_plugin (faultless demo_world_vanished) demo_state))
      = entries (snd (_create_backup demo_plugin demo_world_vanished demo_state)) ++ rest.
Proof.
  split; [reflexivity |].
  apply (X6_partial_archive_is_a_prefix demo_plugin demo_world_vanished demo_state eq_refl).
Defined.

(** ** Retention at its edges *)

Lemma mtime_keys_raise (l : list dirent) (d : dirent) (e : string) :
  In d l -> d_mtime d = Raise e -> exists e', mtime_keys l = Raise e'.
Proof.
  induction l as [| x l IH]; simpl; intros Hin He; [contradiction |].
  destruct (d_mtime x) as [t | ex] eqn:Ex; [| now exists ex].
  destruct Hin as [-> | Hin]; [congruence |].
  destruct (IH Hin He) as [e' ->]. now exists e'.
Qed.

(** X7.  One archive-named file that cannot be statted (a dangling
    link, say) switches pruning off: nothing is deleted, however many
    archives there are, and a single warning is logged. *)
Theorem X7_stat_failure_stops_pruning
        (self : plugin) (backup_dir : path) (s : state) (d : dirent) (e : string) :
  (0 < get (cfg_max_backups (cfg self)) 5)%Z ->
  In d (glob_backups (st_dir s)) ->
  d_mtime d = Raise e ->
  st_dir (snd (_cleanup_old_backups self backup_dir s)) = st_dir s
  /\ exists e',
      st_log (snd (_cleanup_old_backups self backup_dir s))
      = st_log s ++ [LogCleanupFailed e'].
Proof.
  intros HK Hd He.
  destruct (mtime_keys_raise _ d e Hd He) as [e' Hk].
  rewrite cleanup_cases. cbn [snd].
  replace (_ <=? 0)%Z with false by (symmetry; apply Z.leb_gt; lia).
  rewrite Hk. cbn [st_dir st_log]. split; [reflexivity | now exists e'].
Qed.

Lemma X7_witness :
  In (mkDirent "astrbot_backup_link.zip" (Raise "No such file or directory") None)
     (glob_backups (mkDirent "astrbot_backup_link.zip"
                             (Raise "No such file or directory") None :: demo_dir))
  /\ st_dir (snd (_cleanup_old_backups
                    keep_two demo_backup_dir
                    (mkState (mkDirent "astrbot_backup_link.zip"
                                       (Raise "No such file or directory") None
                              :: demo_dir) None [])))
     = mkDirent "astrbot_backup_link.zip" (Raise "No such file or directory") None
       :: demo_dir.
Proof.
  assert (In (mkDirent "astrbot_backup_link.zip" (Raise "No such file or directory") None)
             (glob_backups (mkDirent "astrbot_backup_link.zip"
                                     (Raise "No such file or directory") None :: demo_dir)))
    as H by (vm_compute; auto).
  split; [exact H |].
  apply (X7_stat_failure_stops_pruning
           keep_two demo_backup_dir
           (mkState (mkDirent "astrbot_backup_link.zip"
                              (Raise "No such file or directory") None :: demo_dir) None [])
           _ "No such file or directory" eq_refl H eq_refl).
Defined.

Lemma old_backups_none (self : plugin) (s : state) :
  (Z.of_nat (List.length (glob_backups (st_dir s)))
   <= get (cfg_max_backups (cfg self)) 5)%Z ->
  old_backups self s = [].
Proof.
  intros H. pose proof (old_backups_length self s) as Hl.
  destruct (old_backups self s); [reflexivity |]. simpl in Hl. lia.
Qed.

Lemma nothing_to_prune (self : plugin) (backup_dir : path) (s : state) :
  Forall (fun d => exists t, d_mtime d = Ok t) (glob_backups (st_dir s)) ->
  (Z.of_nat (List.length (glob_backups (st_dir s)))
   <= get (cfg_max_backups (cfg self)) 5)%Z ->
  snd (_cleanup_old_backups self backup_dir s) = s.
Proof.
  intros Hm Hle. rewrite cleanup_cases. cbn [snd].
  destruct (_ <=? 0)%Z; [reflexivity |].
  destruct (mtime_keys_defined _ Hm) as [ks ->].
  cbv zeta. now rewrite (old_backups_none self s Hle).
Qed.

(** X8.  With no more archives than the cap, and each of them
    stat-able, pruning changes nothing at all: no file goes and no line
    is logged. *)
Theorem X8_nothing_to_prune_below_the_cap
        (self : plugin) (backup_dir : path) (s : state) :
  Forall (fun d => exists t, d_mtime d = Ok t) (glob_backups (st_dir s)) ->
  (Z.of_nat (List.length (glob_backups (st_dir s)))
   <= get (cfg_max_backups (cfg self)) 5)%Z ->
  snd (_cleanup_old_backups self backup_dir s) = s.
Proof. apply nothing_to_prune. Qed.

Lemma X8_witness :
  snd (_cleanup_old_backups (mkPlugin (mkConfig None (Some 7%Z) None) [])
                            demo_backup_dir demo_state)
  = demo_state.
Proof.
  apply X8_nothing_to_prune_below_the_cap.
  - vm_compute. repeat constructor; eexists; reflexivity.
  - vm_compute. discriminate.
Defined.

(** X9.  Old backups are deleted one by one, each on its own: one that
    can be unlinked is gone afterwards whatever happened to the others,
    and one whose [unlink] raises stays, with a warning naming it and
    the exception. *)
Theorem X9_deletion_failures_are_isolated
        (self : plugin) (backup_dir : path) (s : state) (d : dirent) :
  NoDup (listing s) ->
  In d (old_backups self s) ->
  (d_unlink d = None ->
   ~ In (d_name d) (listing (snd (_cleanup_old_backups self backup_dir s))))
  /\ (forall e, d_unlink d = Some e ->
        In d (st_dir (snd (_cleanup_old_backups self backup_dir s)))
        /\ In (LogDeleteFailed (backup_dir ++ [d_name d]) e)
              (st_log (snd (_cleanup_old_backups self backup_dir s)))).
Proof.
  intros Hnd Hd. split.
  - intros Hu. apply (left_directory self backup_dir s (d_name d)).
    apply in_map. apply filter_In. split; [assumption |].
    unfold can_unlink. now rewrite Hu.
  - intros e Hu. split.
    + rewrite cleanup_dir. apply filter_In.
      pose proof (old_backups_are_backups self s d Hd) as Hg.
      apply filter_In in Hg. destruct Hg as [Hin _].
      split; [assumption |].
      destruct (PyStr.str_in _ _) eqn:E; [| reflexivity].
      apply str_in_In, in_map_iff in E. destruct E as [x [En Hx]].
      apply filter_In in Hx. destruct Hx as [Hxo Hxu].
      assert (x = d) as ->.
      { apply (NoDup_map_injective d_name (st_dir s)); try assumption.
        pose proof (old_backups_are_backups self s x Hxo) as Hxg.
        now apply filter_In in Hxg. }
      unfold can_unlink in Hxu. rewrite Hu in Hxu. discriminate.
    + destruct (cleanup_log self backup_dir s) as [recs [-> [-> | [Hnil _]]]].
      * apply in_or_app. right. apply in_map_iff. exists d.
        split; [| assumption]. unfold delete_record. now rewrite Hu.
      * rewrite Hnil in Hd. contradiction.
Qed.

Lemma X9_witness :
  NoDup (listing locked_state)
  /\ In (mkDirent "astrbot_backup_20250101_000000.zip" (Ok 10%Z) (Some "Permission denied"))
        (old_backups keep_two locked_state)
  /\ In (mkDirent "astrbot_backup_20250101_000000.zip" (Ok 10%Z) (Some "Permission denied"))
        (st_dir (snd (_cleanup_old_backups keep_two demo_backup_dir locked_state))).
Proof.
  assert (NoDup (listing locked_state)) as H
    by (vm_compute; repeat constructor; simpl; intuition discriminate).
  assert (In (mkDirent "astrbot_backup_20250101_000000.zip" (Ok 10%Z)
                       (Some "Permission denied"))
             (old_backups keep_two locked_state)) as Hd by (vm_compute; auto).
  split; [exact H | split; [exact Hd |]].
  destruct (X9_deletion_failures_are_isolated
              keep_two demo_backup_dir locked_state _ H Hd) as [_ Hstay].
  destruct (Hstay "Permission denied" eq_refl) as [Hin _]. exact Hin.
Defined.

Lemma glob_after_cleanup (self : plugin) (backup_dir : path) (s : state) (x : dirent) :
  In x (glob_backups (st_dir (snd (_cleanup_old_backups self backup_dir s)))) ->
  In x (glob_backups (st_dir s)).
Proof.
  rewrite cleanup_dir. unfold glob_backups. rewrite !filter_In. tauto.
Qed.

(** When deletions succeed, pruning leaves at most the cap. *)
Lemma capped_after_cleanup (self : plugin) (backup_dir : path) (s : state) :
  NoDup (listing s) ->
  Forall (fun d => d_unlink d = None) (glob_backups (st_dir s)) ->
  Forall (fun d => exists t, d_mtime d = Ok t) (glob_backups (st_dir s)) ->
  (0 < get (cfg_max_backups (cfg self)) 5)%Z ->
  (Z.of_nat (List.length
               (glob_backups (st_dir (snd (_cleanup_old_backups self backup_dir s)))))
   <= get (cfg_max_backups (cfg self)) 5)%Z.
Proof.
  intros Hnd Hu Hm HK.
  destruct (Z_lt_le_dec (get (cfg_max_backups (cfg self)) 5%Z)
                        (Z.of_nat (List.length (glob_backups (st_dir s))))) as [Hlt | Hle].
  - assert (Forall (fun d => d_unlink d = None) (old_backups self s)) as Ho.
    { rewrite Forall_forall in *. intros d Hd. apply Hu.
      now apply (old_backups_are_backups self s). }
    rewrite (remaining_count self backup_dir s Hnd Ho Hm (conj HK Hlt)). lia.
  - now rewrite (nothing_to_prune self backup_dir s Hm Hle).
Qed.

(** X10.  Pruning twice is pruning once: when the deletions of the
    first run succeed, a second run finds nothing to do and leaves the
    state, log included, as the first run left it. *)
Theorem X10_pruning_is_idempotent (self : plugin) (backup_dir : path) (s : state) :
  NoDup (listing s) ->
  Forall (fun d => d_unlink d = None) (glob_backups (st_dir s)) ->
  Forall (fun d => exists t, d_mtime d = Ok t) (glob_backups (st_dir s)) ->
  snd (_cleanup_old_backups self backup_dir
                            (snd (_cleanup_old_backups self backup_dir s)))
  = snd (_cleanup_old_backups self backup_dir s).
Proof.
  intros Hnd Hu Hm.
  destruct (Z_lt_le_dec 0 (get (cfg_max_backups (cfg self)) 5%Z)) as [HK | HK].
  - apply nothing_to_prune.
    + rewrite Forall_forall in *. intros x Hx. apply Hm.
      now apply (glob_after_cleanup self backup_dir s).
    + now apply capped_after_cleanup.
  - rewrite !cleanup_cases. cbn [snd]. apply Z.leb_le in HK. now rewrite HK.
Qed.

Lemma X10_witness :
  snd (_cleanup_old_backups demo_plugin demo_backup_dir
         (snd (_cleanup_old_backups demo_plugin demo_backup_dir demo_state)))
  = snd (_cleanup_old_backups demo_plugin demo_backup_dir demo_state).
Proof.
  apply X10_pruning_is_idempotent.
  - vm_compute. repeat constructor; simpl; intuition discriminate.
  - vm_compute. repeat constructor.
  - vm_compute. repeat constructor; eexists; reflexivity.
Defined.

(** ** Building, then pruning *)

Lemma create_entry_names_inv (w : world) (fname : string) (l : list dirent) (n : string) :
  In n (map d_name (create_entry w fname l)) -> n = fname \/ In n (map d_name l).
Proof.
  induction l as [| x l IH]; simpl.
  - intros [H | []]. now left.
  - destruct (String.eqb (d_name x) fname) eqn:E; simpl.
    + apply String.eqb_eq in E. intros [H | H]; [now left | now right; right].
    + intros [H | H]; [now right; left |].
      destruct (IH H) as [-> | Hn]; [now left | now right; right].
Qed.

(** Creating the archive keeps the names of the directory distinct. *)
Lemma create_entry_distinct (w : world) (fname : string) (l : list dirent) :
  NoDup (map d_name l) -> NoDup (map d_name (create_entry w fname l)).
Proof.
  induction l as [| x l IH]; simpl; intros H.
  - repeat constructor. tauto.
  - apply NoDup_cons_iff in H. destruct H as [Hx Hl].
    destruct (String.eqb (d_name x) fname) eqn:E; simpl.
    + apply String.eqb_eq in E. apply NoDup_cons; [now rewrite <- E | assumption].
    + apply String.eqb_neq in E. apply NoDup_cons; [| now apply IH].
      intros Hin. apply create_entry_names_inv in Hin. destruct Hin as [Hf | Hn]; tauto.
Qed.

(** A build that returns has gone past [mkdir] and the opening. *)
Lemma build_ok_opened (self : plugin) (w : world) (s : state) (n : N) :
  fst (build_archive self w s) = Ok n ->
  st_dir (snd (build_archive self w s))
  = create_entry w (_generate_backup_filename (w_now w)) (st_dir s).
Proof.
  intros H. rewrite build_archive_dir. rewrite build_archive_result in H.
  destruct (w_mkdir w); [discriminate |].
  destruct (w_open w); [discriminate | reflexivity].
Qed.

(** X11.  After a successful backup the destination directory holds at
    most [max_backups] archives, provided the cap is positive and the
    archives there, the new one included, can be statted and
    unlinked. *)
Theorem X11_success_leaves_at_most_the_cap (self : plugin) (w : world) (s : state) :
  NoDup (listing s) ->
  Forall (fun d => d_unlink d = None)
         (glob_backups (create_entry w (_generate_backup_filename (w_now w)) (st_dir s))) ->
  Forall (fun d => exists t, d_mtime d = Ok t)
         (glob_backups (create_entry w (_generate_backup_filename (w_now w)) (st_dir s))) ->
  (0 < get (cfg_max_backups (cfg self)) 5)%Z ->
  dict_get "success" (fst (_create_backup self w s)) = Some (PyBool true) ->
  (Z.of_nat (List.length (glob_backups (st_dir (snd (_create_backup self w s)))))
   <= get (cfg_max_backups (cfg self)) 5)%Z.
Proof.
  intros Hnd Hu Hm HK Hok.
  destruct (fst (build_archive self w s)) as [n | e] eqn:E.
  - rewrite (create_backup_success self w s n E). cbn [snd].
    pose proof (build_ok_opened self w s n E) as Hdir.
    apply capped_after_cleanup; try assumption.
    + unfold listing. rewrite Hdir. now apply create_entry_distinct.
    + now rewrite Hdir.
    + now rewrite Hdir.
  - rewrite (create_backup_failure self w s e E) in Hok. discriminate.
Qed.

Lemma X11_witness :
  (Z.of_nat (List.length
               (glob_backups (st_dir (snd (_create_backup demo_plugin demo_world demo_state)))))
   <= get (cfg_max_backups (cfg demo_plugin)) 5)%Z.
Proof.
  apply X11_success_leaves_at_most_the_cap.
  - vm_compute. repeat constructor; simpl; intuition discriminate.
  - vm_compute. repeat constructor.
  - vm_compute. repeat constructor; eexists; reflexivity.
  - reflexivity.
  - vm_compute. reflexivity.
Defined.

(** ** The scheduler between failures *)

Lemma poll_minutes_quiet (env : sched_env) (hi : Z) (n : nat) (st : sched_state) :
  (forall t, (clock st <= t <= hi)%Z -> stop_backup env t = false) ->
  (clock st + minute_us * Z.of_nat n <= hi + minute_us)%Z ->
  poll_minutes env n st
  = mkSched (clock st + minute_us * Z.of_nat n) (disk st)
            (trace st ++ repeat (EvSleep minute_us) n).
Proof.
  assert (0 < minute_us)%Z as Hmin by reflexivity.
  revert st. induction n as [| n IH]; intros st Hq Hn.
  - destruct st as [c d tr]. cbn [poll_minutes clock disk trace repeat].
    rewrite app_nil_r. f_equal. lia.
  - cbn [poll_minutes]. rewrite Hq by lia.
    rewrite IH.
    + unfold sleep. cbn [clock disk trace]. f_equal; [lia |].
      rewrite <- app_assoc. reflexivity.
    + intros t Ht. apply Hq. unfold sleep in Ht. cbn [clock] in Ht. lia.
    + unfold sleep. cbn [clock]. lia.
Qed.

Lemma sleeps_repeat (us : Z) (n : nat) :
  sleeps (repeat (EvSleep us) n) = repeat us n.
Proof. induction n as [| n IH]; simpl; [reflexivity | now rewrite IH]. Qed.

(** An undisturbed wait, in full. *)
Lemma wait_until_quiet (env : sched_env) (next_run : Z) (st : sched_state) :
  (clock st < next_run)%Z ->
  (forall t, (clock st <= t <= next_run)%Z -> stop_backup env t = false) ->
  exists tr,
    wait_until env next_run (next_run - clock st) st
    = (mkSched next_run (disk st) tr, Continue)
    /\ sleeps tr
       = sleeps (trace st)
         ++ repeat minute_us (Z.to_nat ((next_run - clock st) / minute_us))
         ++ [(next_run - clock st) mod minute_us]%Z.
Proof.
  intros Hlt Hq.
  assert (0 < minute_us)%Z as Hmin by reflexivity.
  set (wait := (next_run - clock st)%Z).
  assert (0 <= wait / minute_us)%Z as Hdiv by (apply Z.div_pos; unfold wait; lia).
  pose proof (Z.mod_pos_bound wait minute_us Hmin) as Hmod.
  pose proof (Z.div_mod wait minute_us ltac:(lia)) as Hdm.
  unfold wait_until.
  rewrite (poll_minutes_quiet env next_run).
  - cbn [clock disk trace emit]. rewrite Z2Nat.id by assumption.
    rewrite Hq by (unfold wait in *; lia). unfold sleep. cbn [clock disk trace].
    eexists. split.
    + f_equal. f_equal. unfold wait in *. lia.
    + unfold sleeps. rewrite !flat_map_app. cbn [flat_map app].
      rewrite app_nil_r, <- app_assoc. f_equal. f_equal. apply sleeps_repeat.
  - intros t Ht. apply Hq. cbn [emit clock] in Ht. exact Ht.
  - cbn [emit clock]. rewrite Z2Nat.id by assumption. unfold wait in *. lia.
Qed.

(** X12.  With no stop requested up to the next occurrence, the wait
    ends exactly at it: the minute-long sleeps and the final remainder
    add up to the whole wait, and the directory is not touched
    meanwhile. *)
Theorem X12_wait_ends_at_the_next_occurrence
        (env : sched_env) (next_run : Z) (st : sched_state) :
  (clock st < next_run)%Z ->
  (forall t, (clock st <= t <= next_run)%Z -> stop_backup env t = false) ->
  snd (wait_until env next_run (next_run - clock st) st) = Continue
  /\ clock (fst (wait_until env next_run (next_run - clock st) st)) = next_run
  /\ disk (fst (wait_until env next_run (next_run - clock st) st)) = disk st
  /\ sleeps (trace (fst (wait_until env next_run (next_run - clock st) st)))
     = sleeps (trace st)
       ++ repeat minute_us (Z.to_nat ((next_run - clock st) / minute_us))
       ++ [(next_run - clock st) mod minute_us]%Z.
Proof.
  intros Hlt Hq.
  destruct (wait_until_quiet env next_run st Hlt Hq) as [tr [-> Hs]].
  cbn [fst snd clock disk trace]. now repeat split.
Qed.

Lemma X12_witness :
  (clock sched_start < 90 * second_us)%Z
  /\ clock (fst (wait_until malformed_env (90 * second_us)
                            (90 * second_us - clock sched_start) sched_start))
     = (90 * second_us)%Z.
Proof.
  assert (clock sched_start < 90 * second_us)%Z as H by reflexivity.
  split; [exact H |].
  destruct (X12_wait_ends_at_the_next_occurrence
              malformed_env (90 * second_us)%Z sched_start H (fun _ _ => eq_refl))
    as [_ [Hc _]].
  exact Hc.
Defined.

(** Whatever the attempt did, its result has the keys the callers read. *)
Lemma report_never_raises (self : plugin) (w : world) (s : state) :
  exists r, report (fst (_create_backup self w s)) = Ok r.
Proof.
  destruct (fst (build_archive self w s)) as [n | e] eqn:E.
  - rewrite (create_backup_success self w s n E). now eexists.
  - rewrite (create_backup_failure self w s e E). now eexists.
Qed.

(** X13.  A backup that fails is a missed cycle, not a fault: once the
    next occurrence has been computed, the body of the loop never ends
    in its exception handler, so the one-hour cooldown is reserved for
    failures of the recurrence computation. *)
Theorem X13_failed_backup_is_no_fault
        (self : plugin) (env : sched_env) (cron_expr : string)
        (st : sched_state) (next_run : Z) :
  cron_next env cron_expr (clock st) = Ok next_run ->
  exists c,
    snd (try_block self env cron_expr st) = Ok c
    /\ iteration self env cron_expr st = (fst (try_block self env cron_expr st), c).
Proof.
  intros Hc. unfold iteration.
  assert (exists c, snd (try_block self env cron_expr st) = Ok c) as [c Hok].
  { unfold try_block. rewrite Hc.
    destruct (if (0 <? next_run - clock st)%Z
              then wait_until env next_run (next_run - clock st) st
              else (st, Continue)) as [st' [|]]; [| now eexists].
    unfold run_backup.
    destruct (report_never_raises self (backup_world env (clock (emit (EvLog SchedRunning) st')))
                                  (disk (emit (EvLog SchedRunning) st'))) as [r Hr].
    destruct (_create_backup self _ _) as [result disk'].
    cbn [fst] in Hr. rewrite Hr. now eexists. }
  exists c. split; [exact Hok |].
  destruct (try_block self env cron_expr st) as [st' [c' | e]]; cbn [snd fst] in *;
    congruence.
Qed.

Lemma X13_witness :
  cron_next punctual_env "0 0 */7 * *" (clock sched_start) = Ok (90 * second_us)%Z
  /\ exists c, snd (try_block demo_plugin punctual_env "0 0 */7 * *" sched_start) = Ok c.
Proof.
  split; [reflexivity |].
  destruct (X13_failed_backup_is_no_fault demo_plugin punctual_env "0 0 */7 * *"
              sched_start (90 * second_us)%Z eq_refl) as [c [Hc _]].
  now exists c.
Defined.

(** X19.  With no stop requested in between, a pass of the loop runs
    the backup exactly at the occurrence computed from the current time,
    in the surroundings of that moment, and goes on; the next pass
    starts when the backup is done. *)
Theorem X19_backup_runs_when_due
        (self : plugin) (env : sched_env) (cron_expr : string)
        (st : sched_state) (next_run : Z) :
  cron_next env cron_expr (clock st) = Ok next_run ->
  (clock st < next_run)%Z ->
  (forall t, (clock st <= t <= next_run)%Z -> stop_backup env t = false) ->
  snd (iteration self env cron_expr st) = Continue
  /\ clock (fst (iteration self env cron_expr st))
     = (next_run + backup_time env next_run)%Z
  /\ disk (fst (iteration self env cron_expr st))
     = snd (_create_backup self (backup_world env next_run) (disk st)).
Proof.
  intros Hc Hlt Hq. unfold iteration, try_block. rewrite Hc.
  replace (0 <? next_run - clock st)%Z with true by (symmetry; apply Z.ltb_lt; lia).
  destruct (wait_until_quiet env next_run st Hlt Hq) as [tr [-> _]].
  unfold run_backup. cbn [emit clock disk trace].
  destruct (report_never_raises self (backup_world env next_run) (disk st)) as [r Hr].
  destruct (_create_backup self (backup_world env next_run) (disk st)) as [result disk'].
  cbn [fst snd] in *. rewrite Hr. cbn [fst snd emit clock disk]. now repeat split.
Qed.

Lemma X19_witness :
  cron_next punctual_env "0 0 */7 * *" (clock sched_start) = Ok (90 * second_us)%Z
  /\ clock (fst (iteration demo_plugin punctual_env "0 0 */7 * *" sched_start))
     = (90 * second_us + 5 * second_us)%Z.
Proof.
  split; [reflexivity |].
  destruct (X19_backup_runs_when_due
              demo_plugin punctual_env "0 0 */7 * *" sched_start (90 * second_us)%Z
              eq_refl eq_refl (fun _ _ => eq_refl)) as [_ [Hc _]].
  exact Hc.
Defined.

(** ** The commands *)

(** X14.  The manual trigger always answers and never trips over a
    missing key: a caller who is not an administrator gets the refusal
    and nothing happens; an administrator gets the notice and then the
    outcome of the attempt, success with file name, path and size, or
    failure with the text of the exception. *)
Theorem X14_manual_backup_always_answers (self : plugin) (w : world) (s : state) :
  manual_backup self w false s = ([ReplyNotAdmin], Ok tt, s)
  /\ exists r,
      manual_backup self w true s
      = ([ReplyStarted; r], Ok tt, snd (_create_backup self w s))
      /\ match fst (build_archive self w s) with
         | Ok n =>
             r = ReplySuccess
                   (PyStr (_generate_backup_filename (w_now w)))
                   (PyStr (to_str (_get_backup_path self
                                   ++ [_generate_backup_filename (w_now w)])))
                   (PyFloat (size_mb n))
         | Raise e => r = ReplyFailed (PyStr e)
         end.
Proof.
  split; [reflexivity |]. unfold manual_backup. cbn [negb].
  destruct (fst (build_archive self w s)) as [n | e] eqn:E.
  - rewrite (create_backup_success self w s n E). eexists. split; reflexivity.
  - rewrite (create_backup_failure self w s e E). eexists. split; reflexivity.
Qed.

Lemma status_lines_keys (size_of : string -> N) (fromtimestamp_raises : Z -> option string)
                        (ks : list (Z * dirent)) :
  Forall (fun p => d_mtime (snd p) = Ok (fst p)) ks ->
  Forall (fun p => fromtimestamp_raises (fst p) = None) ks ->
  status_lines size_of fromtimestamp_raises (map snd ks) = Ok (map (line_of size_of) ks).
Proof.
  induction 1 as [| p ks Hp _ IH]; intros Hr; simpl; [reflexivity |].
  inversion Hr as [| ? ? Hr1 Hr2]; subst.
  now rewrite Hp, Hr1, IH.
Qed.

Lemma sorted_front {A : Type} (R : A -> A -> Prop) (a b : list A) :
  StronglySorted R (a ++ b) -> StronglySorted R a.
Proof.
  induction a as [| x a IH]; simpl; intros H; [constructor |].
  inversion H as [| ? ? Hs Hf]; subst. constructor; [now apply IH |].
  apply Forall_app in Hf. tauto.
Qed.

Lemma sorted_lines (size_of : string -> N) (l : list (Z * dirent)) :
  StronglySorted desc l ->
  StronglySorted (fun a b : string * N * Z => (snd b <= snd a)%Z) (map (line_of size_of) l).
Proof.
  induction 1 as [| p l _ IH Hf]; simpl; constructor; [assumption |].
  apply Forall_map. exact Hf.
Qed.

(** X15.  When every archive can be statted and has a modification
    time [datetime.fromtimestamp] accepts, the status command shows the
    newest archives first, five at most, each with its own name, size
    and time, and counts the rest: whatever archive is not shown is no
    newer than any that is. *)
Theorem X15_status_shows_the_newest
        (self : plugin) (size_of : string -> N)
        (fromtimestamp_raises : Z -> option string) (s : state) :
  glob_backups (st_dir s) <> [] ->
  Forall (fun d => exists t, d_mtime d = Ok t) (glob_backups (st_dir s)) ->
  (forall d t, In d (glob_backups (st_dir s)) -> d_mtime d = Ok t ->
     fromtimestamp_raises t = None) ->
  exists shown,
    backup_status self size_of fromtimestamp_raises s
    = ReplyStatus (_get_backup_path self)
                  (List.length (glob_backups (st_dir s)))
                  shown
                  (if Nat.ltb 5 (List.length (glob_backups (st_dir s)))
                   then Some (List.length (glob_backups (st_dir s)) - 5)
                   else None)
    /\ List.length shown = Nat.min 5 (List.length (glob_backups (st_dir s)))
    /\ StronglySorted (fun a b : string * N * Z => (snd b <= snd a)%Z) shown
    /\ (forall line, In line shown ->
          exists d, In d (glob_backups (st_dir s))
                    /\ line = (d_name d, size_of (d_name d), snd line)
                    /\ d_mtime d = Ok (snd line))
    /\ (forall d t, In d (glob_backups (st_dir s)) -> d_mtime d = Ok t ->
          ~ In (d_name d, size_of (d_name d), t) shown ->
          forall line, In line shown -> (t <= snd line)%Z).
Proof.
  intros Hne Hm Hts. unfold backup_status.
  destruct (glob_backups (st_dir s)) as [| d0 l0] eqn:Eg; [congruence |].
  rewrite <- Eg in *. clear Hne.
  destruct (mtime_keys_defined _ Hm) as [ks Hk]. rewrite Hk.
  destruct (mtime_keys_ok _ _ Hk) as [Esnd Hkey].
  assert (forall p, In p (sort_desc ks) -> d_mtime (snd p) = Ok (fst p)) as Hkey'.
  { intros p Hp. rewrite Forall_forall in Hkey. apply Hkey.
    now apply (Permutation_in p (sort_desc_perm ks)). }
  assert (List.length (map snd (sort_desc ks)) = List.length (glob_backups (st_dir s)))
    as Hlen.
  { rewrite length_map, (Permutation_length (sort_desc_perm ks)), <- Esnd.
    now rewrite length_map. }
  assert (forall p, In p (firstn 5 (sort_desc ks)) -> In p (sort_desc ks)) as Hfront.
  { intros p Hp. rewrite <- (firstn_skipn 5). apply in_or_app. now left. }
  cbv zeta. rewrite firstn_map, status_lines_keys.
  2:{ apply Forall_forall. intros p Hp. now apply Hkey', Hfront. }
  2:{ apply Forall_forall. intros p Hp. apply Hfront in Hp.
      apply (Hts (snd p)); [| now apply Hkey'].
      rewrite <- Esnd. apply in_map.
      now apply (Permutation_in p (sort_desc_perm ks)). }
  rewrite Hlen. eexists. split; [reflexivity |].
  pose proof (sort_desc_sorted ks) as Hs.
  rewrite <- (firstn_skipn 5 (sort_desc ks)) in Hs.
  split; [| split; [| split]].
  - rewrite length_map, length_firstn, (Permutation_length (sort_desc_perm ks)).
    rewrite <- Esnd, length_map. reflexivity.
  - apply sorted_lines. now apply sorted_front in Hs.
  - intros line Hl. apply in_map_iff in Hl. destruct Hl as [p [<- Hp]].
    assert (In p (sort_desc ks)) as Hp'
      by (rewrite <- (firstn_skipn 5); apply in_or_app; now left).
    exists (snd p). split; [| split; [reflexivity | now apply Hkey']].
    rewrite <- Esnd. apply in_map.
    now apply (Permutation_in p (sort_desc_perm ks)).
  - intros d t Hd Ht Hout line Hl.
    apply in_map_iff in Hl. destruct Hl as [q [<- Hq]].
    rewrite <- Esnd in Hd. apply in_map_iff in Hd. destruct Hd as [p [<- Hp]].
    apply (Permutation_in p (Permutation_sym (sort_desc_perm ks))) in Hp.
    rewrite (Hkey' p Hp) in Ht. injection Ht as <-.
    rewrite <- (firstn_skipn 5 (sort_desc ks)) in Hp. apply in_app_or in Hp.
    destruct Hp as [Hp | Hp].
    + exfalso. apply Hout. apply in_map_iff. now exists p.
    + apply (sorted_split desc _ _ Hs q p Hq Hp).
Qed.

Lemma X15_witness :
  glob_backups (st_dir demo_state) <> []
  /\ exists shown,
      backup_status demo_plugin (fun _ => 0%N) (fun _ => None) demo_state
      = ReplyStatus (_get_backup_path demo_plugin) 7 shown (Some 2).
Proof.
  assert (glob_backups (st_dir demo_state) <> []) as H1 by (vm_compute; discriminate).
  assert (Forall (fun d => exists t, d_mtime d = Ok t) (glob_backups (st_dir demo_state)))
    as H2 by (vm_compute; repeat constructor; eexists; reflexivity).
  split; [exact H1 |].
  destruct (X15_status_shows_the_newest demo_plugin (fun _ => 0%N) (fun _ => None)
                                        demo_state H1 H2 (fun _ _ _ _ => eq_refl))
    as [shown [E _]].
  exists shown. exact E.
Defined.

(** ** Locating the installation *)

Lemma parent_snoc (l : path) (d : string) :
  PyStr.startswith d "/" = false -> parent (l ++ [d]) = l.
Proof.
  intros Hd. destruct l as [| a l].
  - simpl. now rewrite Hd.
  - destruct l as [| b l]; [reflexivity |].
    change (parent ((a :: b :: l) ++ [d])) with (removelast ((a :: b :: l) ++ [d])).
    apply removelast_last.
Qed.

Lemma parent_snoc2 (l : path) (x y : string) : parent (l ++ [x; y]) = l ++ [x].
Proof.
  destruct l as [| a [| b l]]; try reflexivity.
  change (parent ((a :: b :: l) ++ [x; y])) with (removelast ((a :: b :: l) ++ [x; y])).
  rewrite removelast_app by discriminate. reflexivity.
Qed.

(** X16.  For a plugin file at [base/d/p/f] where [d] is one of
    [data], [core], [plugins], the search never reaches its fallbacks:
    the directory [base] always qualifies, because it holds [d], and the
    answer is [base/d] when that directory itself holds one of the three
    names, and [base] otherwise. *)
Theorem X16_astrbot_path_is_an_ancestor
        (h : host) (base : path) (d p f : string) :
  h_plugin_file h = base ++ [d; p; f] ->
  In d indicators ->
  h_exists h (base ++ [d]) = true ->
  _get_astrbot_path h
  = if looks_like_root h (base ++ [d]) then base ++ [d] else base.
Proof.
  intros Hf Hd He. unfold _get_astrbot_path. rewrite Hf.
  change (base ++ [d; p; f]) with (base ++ [d] ++ [p; f]).
  rewrite app_assoc, parent_snoc2.
  change ((base ++ [d]) ++ [p]) with ((base ++ [d]) ++ [p]).
  rewrite <- app_assoc. cbn [app]. rewrite parent_snoc2.
  rewrite parent_snoc
    by (destruct Hd as [<- | [<- | [<- | []]]]; reflexivity).
  cbn [find]. destruct (looks_like_root h (base ++ [d])); [reflexivity |].
  assert (looks_like_root h base = true) as ->; [| reflexivity].
  unfold looks_like_root. apply existsb_exists. now exists d.
Qed.

Lemma X16_witness :
  h_exists demo_host (["/"; "srv"; "astrbot"; "data"] ++ ["plugins"]) = true
  /\ _get_astrbot_path demo_host = ["/"; "srv"; "astrbot"; "data"].
Proof.
  assert (h_exists demo_host (["/"; "srv"; "astrbot"; "data"] ++ ["plugins"]) = true)
    as H by (vm_compute; reflexivity).
  split; [exact H |].
  rewrite (X16_astrbot_path_is_an_ancestor
             demo_host ["/"; "srv"; "astrbot"; "data"] "plugins" "autobackup" "main.py"
             eq_refl (or_intror (or_intror (or_introl eq_refl))) H).
  vm_compute. reflexivity.
Defined.

(** ** What an attempt leaves alone *)

Lemma generated_name_matches (now : datetime) :
  glob_match backup_glob (_generate_backup_filename now) = true.
Proof. apply (skip_test_glob []). apply (generated_name_is_backup now []). Qed.

(** X20.  A backup attempt, whether it succeeds or fails, creates no
    file in the destination directory but its own archive, and neither
    removes nor alters any file there that is not named like an
    archive. *)
Theorem X20_attempt_touches_archives_only (self : plugin) (w : world) (s : state) :
  (forall n, In n (listing (snd (_create_backup self w s))) ->
     n = _generate_backup_filename (w_now w) \/ In n (listing s))
  /\ (forall d, In d (st_dir s) -> glob_match backup_glob (d_name d) = false ->
        In d (st_dir (snd (_create_backup self w s)))).
Proof.
  assert (forall n, In n (listing (snd (build_archive self w s))) ->
                    n = _generate_backup_filename (w_now w) \/ In n (listing s)) as Hnew.
  { intros n. unfold listing. rewrite build_archive_dir.
    destruct (w_mkdir w); [now right |]. destruct (w_open w); [now right |].
    apply create_entry_names_inv. }
  assert (forall d, In d (st_dir s) -> glob_match backup_glob (d_name d) = false ->
                    In d (st_dir (snd (build_archive self w s)))) as Hold.
  { intros d Hd Hg. rewrite build_archive_dir.
    destruct (w_mkdir w); [assumption |]. destruct (w_open w); [assumption |].
    apply create_entry_others; [assumption |].
    intros E. rewrite E, generated_name_matches in Hg. discriminate. }
  destruct (fst (build_archive self w s)) as [n | e] eqn:E.
  - rewrite (create_backup_success self w s n E). cbn [snd]. split.
    + intros m Hm. apply Hnew. unfold listing in *.
      rewrite cleanup_dir in Hm. apply in_map_iff in Hm.
      destruct Hm as [x [<- Hx]]. apply filter_In in Hx. apply in_map. tauto.
    + intros d Hd Hg. apply others_untouched; [now apply Hold | assumption].
  - rewrite (create_backup_failure self w s e E). cbn [snd]. split.
    + intros m Hm. now apply Hnew.
    + intros d Hd Hg. now apply Hold.
Qed.

Lemma X20_witness :
  In (mkDirent "notes.txt" (Ok 5%Z) None) (st_dir demo_state)
  /\ In (mkDirent "notes.txt" (Ok 5%Z) None)
        (st_dir (snd (_create_backup demo_plugin demo_world_vanished demo_state))).
Proof.
  assert (In (mkDirent "notes.txt" (Ok 5%Z) None) (st_dir demo_state)) as H
    by (vm_compute; tauto).
  split; [exact H |].
  destruct (X20_attempt_touches_archives_only demo_plugin demo_world_vanished demo_state)
    as [_ Hkeep].
  apply (Hkeep _ H). vm_compute. reflexivity.
Defined.

(** ** The destination directory *)

Lemma parts_absolute (s : string) :
  isabs s = true -> exists rest, parts s = "/" :: rest \/ parts s = "//" :: rest.
Proof.
  unfold isabs, PyStr.startswith. intros H.
  apply prefix_split in H. destruct H as [r ->]. cbn [append].
  unfold parts.
  destruct r as [| c r]; [eexists; left; reflexivity |].
  destruct (Ascii.eqb c "/") eqn:Ec.
  - apply Ascii.eqb_eq in Ec. subst c.
    destruct r as [| c2 r]; [eexists; right; reflexivity |].
    destruct (Ascii.eqb c2 "/") eqn:Ec2.
    + apply Ascii.eqb_eq in Ec2. subst c2. eexists. left. reflexivity.
    + assert (splitroot (String "/" (String "/" (String c2 r))) = ("//", String c2 r)) as ->.
      { destruct c2 as [[] [] [] [] [] [] [] []]; try reflexivity; discriminate. }
      eexists. right. reflexivity.
  - assert (splitroot (String "/" (String c r)) = ("/", String c r)) as ->.
    { destruct c as [[] [] [] [] [] [] [] []]; try reflexivity; discriminate. }
    eexists. left. reflexivity.
Qed.

(** X18.  The destination directory is the configured [backup_path]
    only when that is an absolute path, and then it is a path from the
    root; a missing, empty or relative setting gives the parent of the
    installation directory. *)
Theorem X18_destination_directory (self : plugin) :
  (forall p, cfg_backup_path (cfg self) = Some p -> isabs p = true ->
     _get_backup_path self = parts p
     /\ exists rest, parts p = "/" :: rest \/ parts p = "//" :: rest)
  /\ (forall p, get (cfg_backup_path (cfg self)) EmptyString = p ->
        p = EmptyString \/ isabs p = false ->
        _get_backup_path self = parent (astrbot_path self)).
Proof.
  split.
  - intros p Hp Ha. unfold _get_backup_path. rewrite Hp. cbn [get].
    rewrite Ha. split; [| now apply parts_absolute].
    destruct p; [discriminate | reflexivity].
  - intros p <- [Hp | Hp]; unfold _get_backup_path; rewrite Hp;
      [reflexivity | now rewrite andb_false_r].
Qed.

Lemma X18_witness :
  cfg_backup_path (mkConfig (Some "/var/backups") None None) = Some "/var/backups"
  /\ _get_backup_path (mkPlugin (mkConfig (Some "/var/backups") None None) ["/"; "srv"])
     = ["/"; "var"; "backups"].
Proof.
  split; [reflexivity |].
  destruct (proj1 (X18_destination_directory
                     (mkPlugin (mkConfig (Some "/var/backups") None None) ["/"; "srv"]))
                  "/var/backups" eq_refl eq_refl) as [E _].
  rewrite E. reflexivity.
Defined.
